(** * FedEx CSV generator: the shipment list manager of [Home]

    A shallow embedding of the React component [Home] (state [shipments],
    [editingId], [formData] and its event handlers) together with the
    JavaScript built-ins the handlers call: [parseFloat], [isNaN],
    [Math.ceil], [Number.prototype.toString] and the comparison with zero.

    JavaScript numbers are IEEE 754 binary64 values; they are represented by
    [spec_float] of the Standard Library with precision 53 and maximal
    exponent 1024. *)

From Stdlib Require Import ZArith Lia List Bool Ascii String.
From Stdlib Require Import Floats.SpecFloat.
From Stdlib Require Import DecimalPos DecimalN.
Import ListNotations.
Local Open Scope Z_scope.

(** ** JavaScript numbers and the built-ins used by the handlers *)
Module JS.

Definition number := spec_float.

Definition prec : Z := 53.
Definition emax : Z := 1024.

Definition NaN : number := S754_nan.
Definition Infinity : number := S754_infinity false.
Definition zero : number := S754_zero false.

(** [isNaN(x)] for an argument that already is a number. *)
Definition isNaN (x : number) : bool :=
  match x with S754_nan => true | _ => false end.

(** [x <= y] and [x < y] on numbers: false as soon as one side is NaN. *)
Definition leb (x y : number) : bool := SFleb x y.
Definition ltb (x y : number) : bool := SFltb x y.

(** A number is finite when it is neither NaN nor an infinity. *)
Definition isFinite (x : number) : bool :=
  match x with S754_nan | S754_infinity _ => false | _ => true end.

(** Well-formed binary64 values: canonical mantissa and exponent in range. *)
Definition valid (x : number) : bool := valid_binary prec emax x.

(** *** Rounding a positive rational to binary64, to nearest, ties to even *)

(** [2^t] for an integer [t] of either sign, as the fraction
    [pow2_num t / pow2_den t] of two positive integers. *)
Definition pow2_num (t : Z) : Z := 2 ^ Z.max 0 t.
Definition pow2_den (t : Z) : Z := 2 ^ Z.max 0 (- t).

(** [2^t <= a/b], for positive [a] and [b]. *)
Definition ge_pow2 (a b t : Z) : bool :=
  b * pow2_num t <=? a * pow2_den t.

(** [ilog2_ratio a b] is the integer [L] with [2^L <= a/b < 2^(L+1)],
    for positive [a] and [b]. *)
Definition ilog2_ratio (a b : Z) : Z :=
  let d := Z.log2 a - Z.log2 b in
  if ge_pow2 a b d then d else d - 1.

(** The value [q * 2^t], where [q <= 2^53], as a canonical number. *)
Definition finish (q t : Z) : number :=
  match q with
  | Zpos p =>
      if q =? 2 ^ 53 then
        if t + 1 <=? emax - prec then S754_finite false (Z.to_pos (2 ^ 52)) (t + 1)
        else S754_infinity false
      else
        if t <=? emax - prec then S754_finite false p t
        else S754_infinity false
  | _ => S754_zero false
  end.

(** The nearest integer to [num / den], the even one on a tie. *)
Definition nearest_even (num den : Z) : Z :=
  let q := num / den in
  match 2 * (num mod den) ?= den with
  | Lt => q
  | Gt => q + 1
  | Eq => if Z.even q then q else q + 1
  end.

Definition round_ratio (a b : Z) : number :=
  let t := Z.max (ilog2_ratio a b - 52) (-1074) in
  finish (nearest_even (a * pow2_den t) (b * pow2_num t)) t.

(** The number nearest to the decimal [M * 10^E], for [M >= 0]. *)
Definition dec_to_number (M E : Z) : number :=
  if M <=? 0 then S754_zero false
  else if 0 <=? E then round_ratio (M * 10 ^ E) 1
  else round_ratio M (10 ^ (- E)).

(** *** Characters *)

Definition code (c : ascii) : Z := Z.of_N (N_of_ascii c).

Definition is_digit (c : ascii) : bool := (48 <=? code c) && (code c <=? 57).

Definition digit_val (c : ascii) : Z := code c - 48.

(** White space and line terminators among the code units below 256:
    TAB, LF, VT, FF, CR, SP and NBSP. *)
Definition is_space (c : ascii) : bool :=
  let n := code c in
  ((9 <=? n) && (n <=? 13)) || (n =? 32) || (n =? 160).

Fixpoint trim_start (cs : list ascii) : list ascii :=
  match cs with
  | c :: cs' => if is_space c then trim_start cs' else cs
  | [] => []
  end.

(** [DecimalDigits]: the longest run of digits at the head of [cs]; the value
    read continues [acc], and [cnt] counts the digits read. *)
Fixpoint scan_digits (acc cnt : Z) (cs : list ascii) : Z * Z * list ascii :=
  match cs with
  | c :: cs' =>
      if is_digit c then scan_digits (10 * acc + digit_val c) (cnt + 1) cs'
      else (acc, cnt, cs)
  | [] => (acc, cnt, cs)
  end.

Definition ascii_eqb (a b : ascii) : bool := (code a =? code b).

Fixpoint starts_with (p cs : list ascii) : bool :=
  match p, cs with
  | [], _ => true
  | a :: p', c :: cs' => ascii_eqb a c && starts_with p' cs'
  | _ :: _, [] => false
  end.

(** [ExponentPart], when one is present at the head of [cs]; 0 otherwise. *)
Definition scan_exponent (cs : list ascii) : Z :=
  match cs with
  | c :: cs' =>
      if ascii_eqb c "e" || ascii_eqb c "E" then
        match cs' with
        | s :: cs'' =>
            if ascii_eqb s "-" then
              let '(v, n, _) := scan_digits 0 0 cs'' in
              if 0 <? n then - v else 0
            else if ascii_eqb s "+" then
              let '(v, n, _) := scan_digits 0 0 cs'' in
              if 0 <? n then v else 0
            else
              let '(v, n, _) := scan_digits 0 0 cs' in
              if 0 <? n then v else 0
        | [] => 0
        end
      else 0
  | [] => 0
  end.

(** The longest prefix that is a [StrUnsignedDecimalLiteral], as a number;
    [None] when there is no such prefix. *)
Definition parse_unsigned (cs : list ascii) : option number :=
  if starts_with (list_ascii_of_string "Infinity") cs then Some Infinity
  else
    let '(m1, c1, r1) := scan_digits 0 0 cs in
    match r1 with
    | c :: r2 =>
        if ascii_eqb c "." then
          let '(m2, c2, r3) := scan_digits m1 0 r2 in
          if (c1 =? 0) && (c2 =? 0) then None
          else Some (dec_to_number m2 (scan_exponent r3 - c2))
        else if c1 =? 0 then None
        else Some (dec_to_number m1 (scan_exponent r1))
    | [] => if c1 =? 0 then None else Some (dec_to_number m1 0)
    end.

Definition parse_chars (cs : list ascii) : number :=
  let t := trim_start cs in
  match t with
  | c :: t' =>
      if ascii_eqb c "-" then
        match parse_unsigned t' with Some x => SFopp x | None => NaN end
      else if ascii_eqb c "+" then
        match parse_unsigned t' with Some x => x | None => NaN end
      else
        match parse_unsigned t with Some x => x | None => NaN end
  | [] => NaN
  end.

(** [parseFloat(string)]. *)
Definition parseFloat (s : string) : number :=
  parse_chars (list_ascii_of_string s).

(** *** [Math.ceil] *)

(** The positive integer [p], below [2^53], as a canonical number. *)
Definition of_pos (s : bool) (p : positive) : number :=
  let sh := prec - Z.log2 (Zpos p) - 1 in
  S754_finite s (Z.to_pos (Z.shiftl (Zpos p) sh)) (- sh).

Definition of_int (s : bool) (v : Z) : number :=
  match v with
  | Zpos p => of_pos s p
  | _ => S754_zero s
  end.

Definition ceil (x : number) : number :=
  match x with
  | S754_finite s m e =>
      if 0 <=? e then x
      else
        let d := 2 ^ (- e) in
        if Zpos m mod d =? 0 then x
        else if s then of_int true (Zpos m / d)
        else of_int false (Zpos m / d + 1)
  | _ => x
  end.

(** *** [Number.prototype.toString] (radix 10) *)

(** [x / 10^j] as a fraction [(num, den)], for [x = m * 2^e]. *)
Definition scaled (m : positive) (e j : Z) : Z * Z :=
  (Zpos m * pow2_num e * 10 ^ Z.max 0 (- j),
   pow2_den e * 10 ^ Z.max 0 j).

(** Does the decimal [c * 10^j] denote the number [m * 2^e]? *)
Definition rounds_to (m : positive) (e c j : Z) : bool :=
  match dec_to_number c j with
  | S754_finite false m' e' => (m' =? m)%positive && (e' =? e)
  | _ => false
  end.

(** The multiple of [10^j] that denotes [m * 2^e], when there is one: only
    the two multiples around the value can; the closer one is preferred, and
    the even one when they are equally close. *)
Definition try_grid (m : positive) (e j : Z) : option Z :=
  let '(num, den) := scaled m e j in
  let lo := num / den in
  let hi := lo + 1 in
  match rounds_to m e lo j, rounds_to m e hi j with
  | true, true =>
      match 2 * (num mod den) ?= den with
      | Lt => Some lo
      | Gt => Some hi
      | Eq => Some (if Z.even lo then lo else hi)
      end
  | true, false => Some lo
  | false, true => Some hi
  | false, false => None
  end.

(** Fewest digits first: the decimal exponent [j] goes down from [j]. *)
Fixpoint search (fuel : nat) (m : positive) (e j : Z) : option (Z * Z) :=
  match fuel with
  | O => None
  | S fuel' =>
      match try_grid m e j with
      | Some c => Some (c, j)
      | None => search fuel' m e (j - 1)
      end
  end.

(** The exact decimal expansion of [m * 2^e]. *)
Definition exact_decimal (m : positive) (e : Z) : Z * Z :=
  if 0 <=? e then (Zpos m * 2 ^ e, 0) else (Zpos m * 5 ^ (- e), e).

(** An exponent [n] with [m * 2^e < 10^n], from the binary magnitude:
    [log10 2] lies between 0.30102 and 0.30103. *)
Definition decimal_top (m : positive) (e : Z) : Z :=
  let b := Z.log2 (Zpos m) + e + 1 in
  (if 0 <=? b then b * 30103 / 100000 else b * 30102 / 100000) + 1.

(** The digits [s] and exponent [j] with [s * 10^j] denoting [m * 2^e] and
    [s] as short as possible. The exact expansion bounds the search. *)
Definition shortest (m : positive) (e : Z) : Z * Z :=
  let top := decimal_top m e in
  let bot := Z.min 0 e in
  match search (Z.to_nat (top - bot + 1)) m e top with
  | Some r => r
  | None => exact_decimal m e
  end.

Fixpoint chars_of_uint (d : Decimal.uint) : list ascii :=
  match d with
  | Decimal.Nil => []
  | Decimal.D0 d' => "0"%char :: chars_of_uint d'
  | Decimal.D1 d' => "1"%char :: chars_of_uint d'
  | Decimal.D2 d' => "2"%char :: chars_of_uint d'
  | Decimal.D3 d' => "3"%char :: chars_of_uint d'
  | Decimal.D4 d' => "4"%char :: chars_of_uint d'
  | Decimal.D5 d' => "5"%char :: chars_of_uint d'
  | Decimal.D6 d' => "6"%char :: chars_of_uint d'
  | Decimal.D7 d' => "7"%char :: chars_of_uint d'
  | Decimal.D8 d' => "8"%char :: chars_of_uint d'
  | Decimal.D9 d' => "9"%char :: chars_of_uint d'
  end.

(** The decimal digits of a natural number, most significant first. *)
Definition digits_of (n : Z) : list ascii :=
  chars_of_uint (N.to_uint (Z.to_N n)).

(** The digits [s] with decimal exponent [j], laid out as a numeric string:
    [n] is the position of the decimal point, [k] the number of digits. *)
Definition format_decimal (s j : Z) : list ascii :=
  let ds := digits_of s in
  let k := Z.of_nat (List.length ds) in
  let n := k + j in
  if (k <=? n) && (n <=? 21) then
    ds ++ repeat "0"%char (Z.to_nat (n - k))
  else if (0 <? n) && (n <=? 21) then
    firstn (Z.to_nat n) ds ++ "."%char :: skipn (Z.to_nat n) ds
  else if (-6 <? n) && (n <=? 0) then
    "0"%char :: "."%char :: repeat "0"%char (Z.to_nat (- n)) ++ ds
  else
    let e := n - 1 in
    let ex := "e"%char :: (if e <? 0 then "-"%char else "+"%char)
                       :: digits_of (Z.abs e) in
    match ds with
    | [] => ex
    | [d] => d :: ex
    | d :: rest => d :: "."%char :: rest ++ ex
    end.

Definition number_to_chars (x : number) : list ascii :=
  match x with
  | S754_nan => list_ascii_of_string "NaN"
  | S754_zero _ => list_ascii_of_string "0"
  | S754_infinity s =>
      (if s then ["-"%char] else []) ++ list_ascii_of_string "Infinity"
  | S754_finite s m e =>
      (if s then ["-"%char] else []) ++
      (let '(c, j) := shortest m e in format_decimal c j)
  end.

(** [x.toString()]. *)
Definition toString (x : number) : string :=
  string_of_list_ascii (number_to_chars x).

End JS.

(** ** The data model ([types/shipment.ts]) *)

Module Shipment.
Record t : Type := mk {
  id : string;
  length : JS.number;
  width : JS.number;
  height : JS.number;
  weight : JS.number;
  reference : string
}.
End Shipment.

Module ShipmentFormData.
Record t : Type := mk {
  length : string;
  width : string;
  height : string;
  weight : string;
  reference : string
}.
End ShipmentFormData.

(** [keyof ShipmentFormData]. *)
Inductive Field : Type :=
| f_length | f_width | f_height | f_weight | f_reference.

(** What a handler does besides updating the state: the toasts of [sonner]
    and the file download of [downloadCSV]. *)
Inductive Effect : Type :=
| toast_error (msg : string)
| toast_success (msg : string)
| toast_info (msg : string)
| downloadCSV (csv filename : string).

(** The three [useState] cells of [Home]. *)
Record State : Type := mkState {
  shipments : list Shipment.t;
  editingId : option string;
  formData : ShipmentFormData.t
}.

Definition emptyForm : ShipmentFormData.t :=
  ShipmentFormData.mk "" "" "" "" "".

Definition initial : State := mkState [] None emptyForm.

(** Truthiness of a string ([!length], [editingId ? .. : ..]) and of a
    [string | null]. *)
Definition truthy_string (s : string) : bool := negb (s =? "")%string.

Definition truthy (o : option string) : bool :=
  match o with
  | Some s => truthy_string s
  | None => false
  end.

(** [s === o] for a string [s] and a [string | null] [o]. *)
Definition strict_eq (s : string) (o : option string) : bool :=
  match o with
  | Some e => (s =? e)%string
  | None => false
  end.

(** The two states of the edit flow, read off [editingId] the way the
    component tests it. *)
Inductive Mode : Type :=
| idle
| editing (id : string).

Definition mode (st : State) : Mode :=
  match editingId st with
  | Some i => if truthy_string i then editing i else idle
  | None => idle
  end.

(** ** The handlers of [Home] *)

Definition handleInputChange (field : Field) (value : string) (st : State)
  : State :=
  let prev := formData st in
  let next :=
    match field with
    | f_length =>
        ShipmentFormData.mk value (ShipmentFormData.width prev)
          (ShipmentFormData.height prev) (ShipmentFormData.weight prev)
          (ShipmentFormData.reference prev)
    | f_width =>
        ShipmentFormData.mk (ShipmentFormData.length prev) value
          (ShipmentFormData.height prev) (ShipmentFormData.weight prev)
          (ShipmentFormData.reference prev)
    | f_height =>
        ShipmentFormData.mk (ShipmentFormData.length prev)
          (ShipmentFormData.width prev) value (ShipmentFormData.weight prev)
          (ShipmentFormData.reference prev)
    | f_weight =>
        ShipmentFormData.mk (ShipmentFormData.length prev)
          (ShipmentFormData.width prev) (ShipmentFormData.height prev) value
          (ShipmentFormData.reference prev)
    | f_reference =>
        ShipmentFormData.mk (ShipmentFormData.length prev)
          (ShipmentFormData.width prev) (ShipmentFormData.height prev)
          (ShipmentFormData.weight prev) value
    end in
  mkState (shipments st) (editingId st) next.

(** [validateForm]: the verdict and the toast it shows. *)
Definition validateForm (fd : ShipmentFormData.t) : bool * list Effect :=
  let length := ShipmentFormData.length fd in
  let width := ShipmentFormData.width fd in
  let height := ShipmentFormData.height fd in
  let weight := ShipmentFormData.weight fd in
  if negb (truthy_string length) || negb (truthy_string width)
     || negb (truthy_string height) || negb (truthy_string weight)
  then (false, [toast_error "Please fill in all dimension and weight fields"])
  else
    let l := JS.parseFloat length in
    let w := JS.parseFloat width in
    let h := JS.parseFloat height in
    let wt := JS.parseFloat weight in
    if JS.isNaN l || JS.isNaN w || JS.isNaN h || JS.isNaN wt
    then (false, [toast_error "Dimensions and weight must be valid numbers"])
    else if JS.leb l JS.zero || JS.leb w JS.zero || JS.leb h JS.zero
            || JS.leb wt JS.zero
    then (false,
          [toast_error "Dimensions and weight must be greater than zero"])
    else (true, []).

(** The record built from the draft; [nanoid] is the identifier that
    [nanoid()] returns when it is called. *)
Definition newShipment (nanoid : string) (st : State) : Shipment.t :=
  let fd := formData st in
  Shipment.mk
    (match editingId st with
     | Some i => if truthy_string i then i else nanoid
     | None => nanoid
     end)
    (JS.ceil (JS.parseFloat (ShipmentFormData.length fd)))
    (JS.ceil (JS.parseFloat (ShipmentFormData.width fd)))
    (JS.ceil (JS.parseFloat (ShipmentFormData.height fd)))
    (JS.parseFloat (ShipmentFormData.weight fd))
    (ShipmentFormData.reference fd).

(** [handleAddShipment]: the submit handler, for adding and for updating. *)
Definition handleAddShipment (nanoid : string) (st : State)
  : State * list Effect :=
  let '(ok, log) := validateForm (formData st) in
  if negb ok then (st, log)
  else
    let new := newShipment nanoid st in
    if truthy (editingId st) then
      (mkState
         (map (fun s => if strict_eq (Shipment.id s) (editingId st)
                        then new else s)
              (shipments st))
         None emptyForm,
       log ++ [toast_success "Package updated"])
    else
      (mkState (shipments st ++ [new]) (editingId st) emptyForm,
       log ++ [toast_success "Package added"]).

Definition handleEdit (shipment : Shipment.t) (st : State)
  : State * list Effect :=
  (mkState (shipments st) (Some (Shipment.id shipment))
     (ShipmentFormData.mk
        (JS.toString (Shipment.length shipment))
        (JS.toString (Shipment.width shipment))
        (JS.toString (Shipment.height shipment))
        (JS.toString (Shipment.weight shipment))
        (Shipment.reference shipment)),
   [toast_info "Editing package"]).

Definition handleDelete (id : string) (st : State) : State * list Effect :=
  (mkState
     (filter (fun s => negb (Shipment.id s =? id)%string) (shipments st))
     (if strict_eq id (editingId st) then None else editingId st)
     (formData st),
   [toast_success "Package removed"]).

(** The [onClick] of the Cancel button. *)
Definition handleCancel (st : State) : State * list Effect :=
  (mkState (shipments st) None emptyForm, [toast_info "Editing cancelled"]).

(** [handleClearAll]; [confirmed] is the answer of the [confirm] dialog. *)
Definition handleClearAll (confirmed : bool) (st : State)
  : State * list Effect :=
  match shipments st with
  | [] => (st, [])
  | _ :: _ =>
      if confirmed then
        (mkState [] None (formData st), [toast_success "All packages cleared"])
      else (st, [])
  end.

(** The decimal numeral of a list length, as in a template literal. *)
Definition count_string (n : nat) : string :=
  string_of_list_ascii (JS.digits_of (Z.of_nat n)).

(** [iso.split('T')[0]]. *)
Fixpoint before_T (iso : string) : string :=
  match iso with
  | EmptyString => EmptyString
  | String c rest =>
      if JS.ascii_eqb c "T" then EmptyString else String c (before_T rest)
  end.

Section CsvExport.

(** [generateCSV] of [lib/csv], which the handlers import. *)
Variable generateCSV : list Shipment.t -> string.

(** [handleGenerateCSV]; [now] is [new Date().toISOString()]. *)
Definition handleGenerateCSV (now : string) (st : State)
  : State * list Effect :=
  match shipments st with
  | [] => (st, [toast_error "Add at least one package to generate CSV"])
  | _ :: _ =>
      let csv := generateCSV (shipments st) in
      let timestamp := before_T now in
      let n := List.length (shipments st) in
      (st,
       [downloadCSV csv ("fedex_shipments_" ++ timestamp ++ ".csv");
        toast_success
          ("CSV downloaded with " ++ count_string n ++ " package"
           ++ (if (1 <? n)%nat then "s" else ""))])
  end.

End CsvExport.

(** ** The edit flow as a transition system *)

Inductive Event : Type :=
| InputChange (field : Field) (value : string)
| Submit (nanoid : string)
| Edit (shipment : Shipment.t)
| Delete (id : string)
| Cancel
| ClearAll (confirmed : bool).

Definition step (ev : Event) (st : State) : State :=
  match ev with
  | InputChange field value => handleInputChange field value st
  | Submit nanoid => fst (handleAddShipment nanoid st)
  | Edit shipment => fst (handleEdit shipment st)
  | Delete id => fst (handleDelete id st)
  | Cancel => fst (handleCancel st)
  | ClearAll confirmed => fst (handleClearAll confirmed st)
  end.

Definition ids (st : State) : list string := map Shipment.id (shipments st).

(** What [nanoid()] hands out: a string of 21 characters that no record of
    the store carries. *)
Definition nanoid_ok (nanoid : string) (st : State) : Prop :=
  String.length nanoid = 21%nat /\ ~ In nanoid (ids st).

(** [nanoid()] is only called by a submit that is not an update. *)
Definition enabled (ev : Event) (st : State) : Prop :=
  match ev with
  | Submit nanoid => truthy (editingId st) = false -> nanoid_ok nanoid st
  | _ => True
  end.

(** The states the component can be in, starting from the empty store. *)
Inductive reachable : State -> Prop :=
| reachable_initial : reachable initial
| reachable_step ev st :
    reachable st -> enabled ev st -> reachable (step ev st).

(** ** Specification vocabulary *)

(** A strictly positive number ([+Infinity] included). *)
Definition strictly_positive (x : JS.number) : Prop :=
  JS.ltb JS.zero x = true.

(** A draft field that passes validation. *)
Definition field_ok (s : string) : Prop :=
  s <> ""%string /\ JS.isNaN (JS.parseFloat s) = false
  /\ strictly_positive (JS.parseFloat s).

Definition draft_ok (fd : ShipmentFormData.t) : Prop :=
  field_ok (ShipmentFormData.length fd) /\ field_ok (ShipmentFormData.width fd)
  /\ field_ok (ShipmentFormData.height fd)
  /\ field_ok (ShipmentFormData.weight fd).

Definition positive_record (s : Shipment.t) : Prop :=
  strictly_positive (Shipment.length s)
  /\ strictly_positive (Shipment.width s)
  /\ strictly_positive (Shipment.height s)
  /\ strictly_positive (Shipment.weight s).

(** ** Vocabulary for the built-ins *)

(** The specification of [ilog2_ratio]. *)
Definition is_ilog2 (a b L : Z) : Prop :=
  JS.ge_pow2 a b L = true /\ JS.ge_pow2 a b (L + 1) = false.

(** Numbers without a fractional part: [Math.ceil] returns them as they
    are. *)
Definition integral (x : JS.number) : Prop := JS.ceil x = x.

(** The value of a run of digits read after [acc]. *)
Definition digits_value (acc : Z) (cs : list ascii) : Z :=
  fold_left (fun a c => 10 * a + JS.digit_val c) cs acc.

Definition all_digits (cs : list ascii) : Prop :=
  Forall (fun c => JS.is_digit c = true) cs.

(** A remainder at which [scan_digits] stops. *)
Definition stops (rest : list ascii) : Prop :=
  match rest with
  | [] => True
  | c :: _ => JS.is_digit c = false
  end.

(** A remainder that ends the integer part without opening a fraction. *)
Definition ends_mantissa (tail : list ascii) : Prop :=
  match tail with
  | [] => True
  | c :: _ => JS.is_digit c = false /\ JS.ascii_eqb c "." = false
  end.

(** What every record of a reachable store satisfies: a [nanoid] identifier,
    whole and strictly positive dimensions, a strictly positive weight, all
    of them canonical numbers. *)
Definition dimension_inv (x : JS.number) : Prop :=
  JS.valid x = true /\ strictly_positive x /\ integral x.

Definition record_inv (s : Shipment.t) : Prop :=
  String.length (Shipment.id s) = 21%nat
  /\ dimension_inv (Shipment.length s)
  /\ dimension_inv (Shipment.width s)
  /\ dimension_inv (Shipment.height s)
  /\ JS.valid (Shipment.weight s) = true
  /\ strictly_positive (Shipment.weight s).

Definition store_inv (st : State) : Prop :=
  NoDup (ids st) /\ Forall record_inv (shipments st).

(** The draft that [handleEdit] loads from a record. *)
Definition draft_of (s : Shipment.t) : ShipmentFormData.t :=
  ShipmentFormData.mk
    (JS.toString (Shipment.length s)) (JS.toString (Shipment.width s))
    (JS.toString (Shipment.height s)) (JS.toString (Shipment.weight s))
    (Shipment.reference s).

(** Running a sequence of events, and the side condition on the
    identifiers that [nanoid()] returns along the way. *)
Fixpoint run (evs : list Event) (st : State) : State :=
  match evs with
  | [] => st
  | ev :: evs' => run evs' (step ev st)
  end.

Fixpoint all_enabled (evs : list Event) (st : State) : Prop :=
  match evs with
  | [] => True
  | ev :: evs' => enabled ev st /\ all_enabled evs' (step ev st)
  end.

(** ** Sample data *)

(** A draft whose length field reads [Infinity]. *)
Definition draft_Infinity : ShipmentFormData.t :=
  ShipmentFormData.mk "Infinity" "8" "6" "5.5" "INV-12345".

(** A draft whose length field reads [0]. *)
Definition draft_zero : ShipmentFormData.t :=
  ShipmentFormData.mk "0" "8" "6" "5.5" "".

(** A draft with a fractional length. *)
Definition draft_example : ShipmentFormData.t :=
  ShipmentFormData.mk "12.5" "8" "6" "5.5" "INV-12345".

(** A session in which two packages are entered. *)
Definition session_add_two : list Event :=
  [ InputChange f_length "11.2"; InputChange f_width "8";
    InputChange f_height "6"; InputChange f_weight "5.5";
    InputChange f_reference "INV-12345"; Submit "V1StGXR8_Z5jdHi6B-myT";
    InputChange f_length "20"; InputChange f_width "10";
    InputChange f_height "4"; InputChange f_weight "2.25";
    InputChange f_reference "SO-67890"; Submit "Uakgb_J5m9g-0JDMbcJqL" ].

Definition state_two : State := run session_add_two initial.

Definition first_record : Shipment.t :=
  Shipment.mk "V1StGXR8_Z5jdHi6B-myT" (JS.parseFloat "12") (JS.parseFloat "8")
    (JS.parseFloat "6") (JS.parseFloat "5.5") "INV-12345".

Definition second_record : Shipment.t :=
  Shipment.mk "Uakgb_J5m9g-0JDMbcJqL" (JS.parseFloat "20") (JS.parseFloat "10")
    (JS.parseFloat "4") (JS.parseFloat "2.25") "SO-67890".

(** The first of two records is being edited, with a changed draft. *)
Definition state_editing_a : State :=
  mkState [first_record; second_record] (Some "V1StGXR8_Z5jdHi6B-myT"%string)
    (ShipmentFormData.mk "12.2" "8" "7" "5.75" "INV-12345").

Definition state_two_editing : State := step (Edit first_record) state_two.

(** * Properties *)

(** ** The built-ins on sample inputs *)

Example parse_5_5 :
  JS.parseFloat "5.5" = S754_finite false 6192449487634432 (-50).
Proof. vm_compute. reflexivity. Qed.

Example parse_12 : JS.parseFloat "12" = JS.of_int false 12.
Proof. vm_compute. reflexivity. Qed.

Example parse_tenth_prefix :
  JS.parseFloat "  0.1e0abc" =
  SFdiv JS.prec JS.emax (JS.of_int false 1) (JS.of_int false 10).
Proof. vm_compute. reflexivity. Qed.

Example parse_Infinity : JS.parseFloat "Infinity" = JS.Infinity.
Proof. vm_compute. reflexivity. Qed.

Example parse_abc : JS.parseFloat "abc" = JS.NaN.
Proof. vm_compute. reflexivity. Qed.

Example ceil_5_5 : JS.ceil (JS.parseFloat "5.5") = JS.parseFloat "6".
Proof. vm_compute. reflexivity. Qed.

Example toString_5_5 : JS.toString (JS.parseFloat "5.5") = "5.5"%string.
Proof. vm_compute. reflexivity. Qed.

Example toString_big : JS.toString (JS.parseFloat "1e21") = "1e+21"%string.
Proof. vm_compute. reflexivity. Qed.

Example toString_small : JS.toString (JS.parseFloat ".0000001") = "1e-7"%string.
Proof. vm_compute. reflexivity. Qed.

(** ** Powers of two of either sign *)

Lemma pow2_num_pos (t : Z) : 0 < JS.pow2_num t.
Proof. unfold JS.pow2_num. apply Z.pow_pos_nonneg; lia. Qed.

Lemma pow2_den_pos (t : Z) : 0 < JS.pow2_den t.
Proof. unfold JS.pow2_den. apply Z.pow_pos_nonneg; lia. Qed.

Lemma pow2_num_nonneg (t : Z) : 0 <= t -> JS.pow2_num t = 2 ^ t /\ JS.pow2_den t = 1.
Proof.
  intros H. unfold JS.pow2_num, JS.pow2_den.
  rewrite Z.max_r by lia. rewrite Z.max_l by lia. split; reflexivity.
Qed.

Lemma pow2_den_nonpos (t : Z) : t <= 0 -> JS.pow2_num t = 1 /\ JS.pow2_den t = 2 ^ (- t).
Proof.
  intros H. unfold JS.pow2_num, JS.pow2_den.
  rewrite Z.max_l by lia. rewrite Z.max_r by lia. split; reflexivity.
Qed.

(** [2^(t+k) = 2^k * 2^t] on the fractions. *)
Lemma pow2_shift (t k : Z) :
  0 <= k ->
  JS.pow2_num (t + k) * JS.pow2_den t
  = 2 ^ k * JS.pow2_num t * JS.pow2_den (t + k).
Proof.
  intros Hk.
  destruct (Z_le_gt_dec 0 t) as [Ht | Ht].
  - destruct (pow2_num_nonneg t Ht) as [-> ->].
    destruct (pow2_num_nonneg (t + k) ltac:(lia)) as [-> ->].
    rewrite Z.pow_add_r by lia. ring.
  - destruct (pow2_den_nonpos t ltac:(lia)) as [-> ->].
    destruct (Z_le_gt_dec 0 (t + k)) as [Htk | Htk].
    + destruct (pow2_num_nonneg (t + k) Htk) as [-> ->].
      replace k with ((t + k) + (- t)) at 2 by ring.
      rewrite (Z.pow_add_r 2 (t + k) (- t)) by lia. ring.
    + destruct (pow2_den_nonpos (t + k) ltac:(lia)) as [-> ->].
      replace (- t) with (k + - (t + k)) at 1 by ring.
      rewrite Z.pow_add_r by lia. ring.
Qed.

Lemma ge_pow2_iff (a b t : Z) :
  JS.ge_pow2 a b t = true <-> b * JS.pow2_num t <= a * JS.pow2_den t.
Proof. unfold JS.ge_pow2. apply Z.leb_le. Qed.

Lemma ge_pow2_false_iff (a b t : Z) :
  JS.ge_pow2 a b t = false <-> a * JS.pow2_den t < b * JS.pow2_num t.
Proof. unfold JS.ge_pow2. apply Z.leb_gt. Qed.

(** [2^t <= a/b] is downward closed in [t]. *)
Lemma ge_pow2_mono (a b t k : Z) :
  0 < a -> 0 < b -> 0 <= k ->
  JS.ge_pow2 a b (t + k) = true -> JS.ge_pow2 a b t = true.
Proof.
  intros Ha Hb Hk. rewrite !ge_pow2_iff. intros H.
  pose proof (pow2_shift t k Hk) as E.
  pose proof (pow2_num_pos t) as N1. pose proof (pow2_den_pos t) as D1.
  pose proof (pow2_num_pos (t + k)) as N2.
  pose proof (pow2_den_pos (t + k)) as D2.
  assert (P : 1 <= 2 ^ k) by (pose proof (Z.pow_pos_nonneg 2 k ltac:(lia) Hk); lia).
  apply Z.mul_le_mono_pos_r with (p := JS.pow2_den (t + k)); [ exact D2 | ].
  apply Z.le_trans with (b * (JS.pow2_num (t + k) * JS.pow2_den t)).
  - rewrite E. nia.
  - nia.
Qed.

Lemma is_ilog2_unique (a b L1 L2 : Z) :
  0 < a -> 0 < b -> is_ilog2 a b L1 -> is_ilog2 a b L2 -> L1 = L2.
Proof.
  intros Ha Hb [H1 H1'] [H2 H2'].
  destruct (Z.lt_trichotomy L1 L2) as [Hlt | [Heq | Hgt]]; [ | exact Heq | ].
  - replace L2 with ((L1 + 1) + (L2 - L1 - 1)) in H2 by ring.
    apply ge_pow2_mono in H2; [ congruence | lia .. ].
  - replace L1 with ((L2 + 1) + (L1 - L2 - 1)) in H1 by ring.
    apply ge_pow2_mono in H1; [ congruence | lia .. ].
Qed.

Lemma ilog2_ratio_spec (a b : Z) :
  0 < a -> 0 < b -> is_ilog2 a b (JS.ilog2_ratio a b).
Proof.
  intros Ha Hb. unfold JS.ilog2_ratio, is_ilog2.
  set (d := Z.log2 a - Z.log2 b).
  pose proof (Z.log2_spec a Ha) as [La Ua].
  pose proof (Z.log2_spec b Hb) as [Lb Ub].
  pose proof (Z.log2_nonneg a) as Na. pose proof (Z.log2_nonneg b) as Nb.
  rewrite Z.pow_succ_r in Ua, Ub by assumption.
  (* 2^(log2 a) = 2^d * 2^(log2 b) on the fractions *)
  assert (E : 2 ^ Z.log2 a * JS.pow2_den d = 2 ^ Z.log2 b * JS.pow2_num d).
  { destruct (Z_le_gt_dec 0 d) as [Hd | Hd].
    - destruct (pow2_num_nonneg d Hd) as [-> ->].
      replace (Z.log2 a) with (Z.log2 b + d) at 1 by (unfold d; ring).
      rewrite Z.pow_add_r by lia. ring.
    - destruct (pow2_den_nonpos d ltac:(lia)) as [-> ->].
      replace (Z.log2 b) with (Z.log2 a + - d) at 1 by (unfold d; ring).
      rewrite Z.pow_add_r by lia. ring. }
  pose proof (pow2_num_pos d) as N1. pose proof (pow2_den_pos d) as D1.
  pose proof (pow2_shift d 1 ltac:(lia)) as S1.
  pose proof (pow2_num_pos (d + 1)) as N2.
  pose proof (pow2_den_pos (d + 1)) as D2.
  pose proof (pow2_shift (d - 1) 1 ltac:(lia)) as S0.
  replace (d - 1 + 1) with d in S0 by ring.
  pose proof (pow2_num_pos (d - 1)) as N0.
  pose proof (pow2_den_pos (d - 1)) as D0.
  change (2 ^ 1) with 2 in S1, S0.
  destruct (JS.ge_pow2 a b d) eqn:G.
  - split; [ exact G | ].
    apply ge_pow2_false_iff. apply ge_pow2_iff in G.
    apply Z.mul_lt_mono_pos_r with (p := JS.pow2_den d); [ exact D1 | ].
    (* a * den(d+1) * den d < b * num(d+1) * den d = 2 b num d den(d+1) *)
    assert (a * JS.pow2_den d < 2 * b * JS.pow2_num d) by nia.
    nia.
  - replace (d - 1 + 1) with d by ring. split; [ | exact G ].
    apply ge_pow2_iff. apply ge_pow2_false_iff in G.
    apply Z.mul_le_mono_pos_r with (p := JS.pow2_den d); [ exact D1 | ].
    assert (b * JS.pow2_num d <= 2 * a * JS.pow2_den d) by nia.
    nia.
Qed.

Lemma ge_pow2_shift (a b t k : Z) :
  0 < a -> 0 < b -> 0 <= k ->
  JS.ge_pow2 a b (t + k) = true
  <-> 2 ^ k * (b * JS.pow2_num t) <= a * JS.pow2_den t.
Proof.
  intros Ha Hb Hk. rewrite ge_pow2_iff.
  pose proof (pow2_shift t k Hk) as E.
  pose proof (pow2_num_pos t) as N1. pose proof (pow2_den_pos t) as D1.
  pose proof (pow2_num_pos (t + k)) as N2.
  pose proof (pow2_den_pos (t + k)) as D2.
  split; intros H.
  - apply Z.mul_le_mono_pos_r with (p := JS.pow2_den (t + k)); [ exact D2 | ].
    replace (2 ^ k * (b * JS.pow2_num t) * JS.pow2_den (t + k))
      with (b * (2 ^ k * JS.pow2_num t * JS.pow2_den (t + k))) by ring.
    rewrite <- E. nia.
  - apply Z.mul_le_mono_pos_r with (p := JS.pow2_den t); [ exact D1 | ].
    replace (b * JS.pow2_num (t + k) * JS.pow2_den t)
      with (b * (JS.pow2_num (t + k) * JS.pow2_den t)) by ring.
    rewrite E. nia.
Qed.

Lemma ge_pow2_scale (a b c t : Z) :
  0 < c -> JS.ge_pow2 (a * c) (b * c) t = JS.ge_pow2 a b t.
Proof.
  intros Hc. unfold JS.ge_pow2.
  replace (b * c * JS.pow2_num t) with (b * JS.pow2_num t * c) by ring.
  replace (a * c * JS.pow2_den t) with (a * JS.pow2_den t * c) by ring.
  destruct (b * JS.pow2_num t <=? a * JS.pow2_den t) eqn:E.
  - apply Z.leb_le. apply Z.leb_le in E. nia.
  - apply Z.leb_gt. apply Z.leb_gt in E. nia.
Qed.

Lemma ilog2_ratio_scale (a b c : Z) :
  0 < a -> 0 < b -> 0 < c ->
  JS.ilog2_ratio (a * c) (b * c) = JS.ilog2_ratio a b.
Proof.
  intros Ha Hb Hc.
  apply (is_ilog2_unique a b); try assumption.
  - destruct (ilog2_ratio_spec (a * c) (b * c)) as [H1 H2]; [ nia | nia | ].
    rewrite ge_pow2_scale in H1, H2 by assumption. split; assumption.
  - apply ilog2_ratio_spec; assumption.
Qed.

Lemma nearest_even_scale (num den c : Z) :
  0 < den -> 0 < c ->
  JS.nearest_even (num * c) (den * c) = JS.nearest_even num den.
Proof.
  intros Hd Hc. unfold JS.nearest_even.
  rewrite Z.div_mul_cancel_r by lia.
  rewrite Z.mul_mod_distr_r by lia.
  replace (2 * (num mod den * c)) with (2 * (num mod den) * c) by ring.
  rewrite <- (Zmult_compare_compat_r (2 * (num mod den)) den c) by lia.
  reflexivity.
Qed.

(** Rounding only depends on the value of the fraction. *)
Lemma round_ratio_scale (a b c : Z) :
  0 < a -> 0 < b -> 0 < c ->
  JS.round_ratio (a * c) (b * c) = JS.round_ratio a b.
Proof.
  intros Ha Hb Hc. unfold JS.round_ratio.
  rewrite ilog2_ratio_scale by assumption.
  set (t := Z.max (JS.ilog2_ratio a b - 52) (-1074)).
  replace (a * c * JS.pow2_den t) with (a * JS.pow2_den t * c) by ring.
  replace (b * c * JS.pow2_num t) with (b * JS.pow2_num t * c) by ring.
  rewrite nearest_even_scale; [ reflexivity | | assumption ].
  pose proof (pow2_num_pos t). nia.
Qed.

(** ** Canonical numbers *)

Lemma digits2_pos_size (p : positive) : digits2_pos p = Pos.size p.
Proof. induction p; cbn; congruence. Qed.

Lemma digits2_pos_log2 (p : positive) :
  Zpos (digits2_pos p) = Z.log2 (Zpos p) + 1.
Proof.
  destruct p; cbn [digits2_pos Z.log2]; rewrite ?digits2_pos_size; lia.
Qed.

Lemma valid_finite_iff (s : bool) (m : positive) (e : Z) :
  JS.valid (S754_finite s m e) = true
  <-> e = Z.max (Z.log2 (Zpos m) + e - 52) (-1074) /\ e <= 971.
Proof.
  unfold JS.valid, valid_binary, bounded, canonical_mantissa, fexp, emin.
  rewrite andb_true_iff, Z.eqb_eq, Z.leb_le, digits2_pos_log2.
  unfold JS.prec, JS.emax. lia.
Qed.

Lemma nearest_even_bounds (num den lo hi : Z) :
  0 < den -> lo * den <= num -> num < hi * den ->
  lo <= JS.nearest_even num den <= hi.
Proof.
  intros Hd Hlo Hhi. unfold JS.nearest_even.
  pose proof (Z.div_mod num den ltac:(lia)) as E.
  pose proof (Z.mod_pos_bound num den Hd) as B.
  assert (lo <= num / den) by nia.
  assert (num / den < hi) by nia.
  destruct (2 * (num mod den) ?= den); [ destruct (Z.even (num / den)) | | ]; lia.
Qed.

Lemma finish_valid (q t : Z) :
  q <= 2 ^ 53 -> -1074 <= t -> (t = -1074 \/ 2 ^ 52 <= q) ->
  JS.valid (JS.finish q t) = true.
Proof.
  intros Hq Ht Hn. unfold JS.finish.
  destruct q as [ | p | p]; try reflexivity.
  destruct (Z.pos p =? 2 ^ 53) eqn:E53.
  - destruct (t + 1 <=? JS.emax - JS.prec) eqn:Et; [ | reflexivity ].
    apply Z.leb_le in Et. unfold JS.emax, JS.prec in Et.
    apply valid_finite_iff. change (Z.log2 (Z.pos (Z.to_pos (2 ^ 52)))) with 52.
    lia.
  - destruct (t <=? JS.emax - JS.prec) eqn:Et; [ | reflexivity ].
    apply Z.leb_le in Et. unfold JS.emax, JS.prec in Et.
    apply Z.eqb_neq in E53.
    apply valid_finite_iff.
    assert (Hlt : Z.pos p < 2 ^ 53) by lia.
    assert (Hlog : Z.log2 (Z.pos p) < 53) by (apply Z.log2_lt_pow2; lia).
    destruct Hn as [-> | Hn].
    + lia.
    + assert (52 <= Z.log2 (Z.pos p)) by (apply Z.log2_le_pow2; lia).
      lia.
Qed.

Lemma round_ratio_valid (a b : Z) :
  0 < a -> 0 < b -> JS.valid (JS.round_ratio a b) = true.
Proof.
  intros Ha Hb. unfold JS.round_ratio.
  destruct (ilog2_ratio_spec a b Ha Hb) as [HL HU].
  set (L := JS.ilog2_ratio a b) in *.
  set (t := Z.max (L - 52) (-1074)).
  pose proof (pow2_num_pos t) as N. pose proof (pow2_den_pos t) as D.
  assert (Hup : a * JS.pow2_den t < 2 ^ 53 * (b * JS.pow2_num t)).
  { apply Z.nle_gt. intros C.
    apply (ge_pow2_shift a b t 53 Ha Hb ltac:(lia)) in C.
    replace (t + 53) with ((L + 1) + (t + 52 - L)) in C by ring.
    apply ge_pow2_mono in C; [ congruence | lia .. ]. }
  destruct (Z_le_gt_dec (-1074) (L - 52)) as [Hn | Hs].
  - assert (Hlow : 2 ^ 52 * (b * JS.pow2_num t) <= a * JS.pow2_den t).
    { apply (ge_pow2_shift a b t 52 Ha Hb ltac:(lia)).
      replace (t + 52) with L by lia. exact HL. }
    pose proof (nearest_even_bounds (a * JS.pow2_den t) (b * JS.pow2_num t)
                  (2 ^ 52) (2 ^ 53) ltac:(nia) ltac:(lia) ltac:(lia)) as B.
    apply finish_valid; lia.
  - pose proof (nearest_even_bounds (a * JS.pow2_den t) (b * JS.pow2_num t)
                  0 (2 ^ 53) ltac:(nia) ltac:(nia) ltac:(lia)) as B.
    apply finish_valid; lia.
Qed.

(** Rounding a representable value gives the number itself. *)
Lemma round_ratio_exact (m : positive) (e : Z) :
  JS.valid (S754_finite false m e) = true ->
  JS.round_ratio (Zpos m * JS.pow2_num e) (JS.pow2_den e)
  = S754_finite false m e.
Proof.
  intros Hv. apply valid_finite_iff in Hv as [Hcan Hmax].
  pose proof (pow2_num_pos e) as N. pose proof (pow2_den_pos e) as D.
  pose proof (Z.log2_spec (Zpos m) ltac:(lia)) as [Lm Um].
  pose proof (Z.log2_nonneg (Zpos m)) as Nm.
  set (lm := Z.log2 (Zpos m)) in *.
  assert (HL : JS.ilog2_ratio (Zpos m * JS.pow2_num e) (JS.pow2_den e)
               = e + lm).
  { apply (is_ilog2_unique (Zpos m * JS.pow2_num e) (JS.pow2_den e));
      [ nia | lia | apply ilog2_ratio_spec; nia | ].
    split.
    - apply (ge_pow2_shift _ _ e lm); [ nia | lia | lia | ]. nia.
    - destruct (JS.ge_pow2 (Z.pos m * JS.pow2_num e) (JS.pow2_den e) (e + lm + 1))
        eqn:G; [ | reflexivity ].
      replace (e + lm + 1) with (e + (lm + 1)) in G by ring.
      apply (ge_pow2_shift _ _ e (lm + 1)) in G; [ | nia | lia | lia ].
      rewrite <- Z.add_1_r in Um. nia. }
  unfold JS.round_ratio. rewrite HL.
  replace (Z.max (e + lm - 52) (-1074)) with e by lia.
  unfold JS.nearest_even.
  replace (Z.pos m * JS.pow2_num e * JS.pow2_den e)
    with (Zpos m * (JS.pow2_den e * JS.pow2_num e)) by ring.
  rewrite Z.div_mul by nia. rewrite Z.mod_mul by nia.
  assert (Hc : (2 * 0 ?= JS.pow2_den e * JS.pow2_num e) = Lt).
  { apply Z.compare_lt_iff. nia. }
  rewrite Hc. unfold JS.finish.
  assert (Hlt : Zpos m < 2 ^ 53).
  { apply Z.lt_le_trans with (2 ^ Z.succ lm); [ exact Um | ].
    apply Z.pow_le_mono_r; lia. }
  destruct (Z.pos m =? 2 ^ 53) eqn:E53; [ apply Z.eqb_eq in E53; lia | ].
  unfold JS.emax, JS.prec.
  destruct (e <=? 1024 - 53) eqn:Ee; [ reflexivity | apply Z.leb_gt in Ee; lia ].
Qed.

(** ** [parseFloat] returns canonical numbers *)

Lemma dec_to_number_valid (M E : Z) : JS.valid (JS.dec_to_number M E) = true.
Proof.
  unfold JS.dec_to_number.
  destruct (M <=? 0) eqn:HM; [ reflexivity | ]. apply Z.leb_gt in HM.
  destruct (0 <=? E) eqn:HE.
  - apply Z.leb_le in HE. apply round_ratio_valid; [ | lia ].
    pose proof (Z.pow_pos_nonneg 10 E ltac:(lia) HE). nia.
  - apply Z.leb_gt in HE. apply round_ratio_valid; [ lia | ].
    apply Z.pow_pos_nonneg; lia.
Qed.

Lemma parse_unsigned_valid (cs : list ascii) (x : JS.number) :
  JS.parse_unsigned cs = Some x -> JS.valid x = true.
Proof.
  unfold JS.parse_unsigned.
  destruct (JS.starts_with _ cs); [ intros [= <-]; reflexivity | ].
  destruct (JS.scan_digits 0 0 cs) as [[m1 c1] r1].
  destruct r1 as [ | c r2].
  - destruct (c1 =? 0); [ discriminate | ].
    intros [= <-]. apply dec_to_number_valid.
  - destruct (JS.ascii_eqb c ".").
    + destruct (JS.scan_digits m1 0 r2) as [[m2 c2] r3].
      destruct ((c1 =? 0) && (c2 =? 0)); [ discriminate | ].
      intros [= <-]. apply dec_to_number_valid.
    + destruct (c1 =? 0); [ discriminate | ].
      intros [= <-]. apply dec_to_number_valid.
Qed.

Lemma SFopp_valid (x : JS.number) : JS.valid x = true -> JS.valid (SFopp x) = true.
Proof. destruct x; cbn; auto. Qed.

Lemma parse_chars_valid (cs : list ascii) : JS.valid (JS.parse_chars cs) = true.
Proof.
  unfold JS.parse_chars.
  destruct (JS.trim_start cs) as [ | c t']; [ reflexivity | ].
  destruct (JS.ascii_eqb c "-").
  - destruct (JS.parse_unsigned t') as [x | ] eqn:E; [ | reflexivity ].
    apply SFopp_valid. apply (parse_unsigned_valid _ _ E).
  - destruct (JS.ascii_eqb c "+").
    + destruct (JS.parse_unsigned t') as [x | ] eqn:E; [ | reflexivity ].
      apply (parse_unsigned_valid _ _ E).
    + destruct (JS.parse_unsigned (c :: t')) as [x | ] eqn:E; [ | reflexivity ].
      apply (parse_unsigned_valid _ _ E).
Qed.

Lemma parseFloat_valid (s : string) : JS.valid (JS.parseFloat s) = true.
Proof. apply parse_chars_valid. Qed.

(** ** [Math.ceil] *)

Lemma of_pos_canonical (s : bool) (p : positive) :
  Z.log2 (Zpos p) <= 52 ->
  JS.valid (JS.of_pos s p) = true /\ integral (JS.of_pos s p).
Proof.
  intros Hl. unfold JS.of_pos, JS.prec.
  pose proof (Z.log2_nonneg (Zpos p)) as Hn.
  set (sh := 53 - Z.log2 (Zpos p) - 1).
  assert (Hsh : 0 <= sh <= 52) by lia.
  rewrite Z.shiftl_mul_pow2 by lia.
  pose proof (Z.pow_pos_nonneg 2 sh ltac:(lia) ltac:(lia)) as Hp.
  assert (Hid : Zpos (Z.to_pos (Zpos p * 2 ^ sh)) = Zpos p * 2 ^ sh).
  { apply Z2Pos.id. nia. }
  split.
  - apply valid_finite_iff. rewrite Hid, Z.log2_mul_pow2 by lia. lia.
  - unfold integral, JS.ceil.
    destruct (0 <=? - sh); [ reflexivity | ].
    rewrite Z.opp_involutive, Hid, Z.mod_mul by lia. reflexivity.
Qed.

Lemma of_int_canonical (s : bool) (v : Z) :
  v < 2 ^ 53 ->
  JS.valid (JS.of_int s v) = true /\ integral (JS.of_int s v).
Proof.
  intros Hv. destruct v as [ | p | p]; try (split; reflexivity).
  apply of_pos_canonical.
  assert (Z.log2 (Zpos p) < 53) by (apply Z.log2_lt_pow2; lia). lia.
Qed.

Lemma valid_mantissa_bound (s : bool) (m : positive) (e : Z) :
  JS.valid (S754_finite s m e) = true -> Zpos m < 2 ^ 53.
Proof.
  intros Hv. apply valid_finite_iff in Hv as [Hcan _].
  pose proof (Z.log2_spec (Zpos m) ltac:(lia)) as [_ Um].
  apply Z.lt_le_trans with (2 ^ Z.succ (Z.log2 (Zpos m))); [ exact Um | ].
  apply Z.pow_le_mono_r; lia.
Qed.

Lemma ceil_canonical (x : JS.number) :
  JS.valid x = true ->
  JS.valid (JS.ceil x) = true /\ integral (JS.ceil x).
Proof.
  intros Hv. destruct x as [s | s | | s m e]; try (split; reflexivity).
  pose proof (valid_mantissa_bound _ _ _ Hv) as Hm.
  unfold integral. cbn [JS.ceil].
  destruct (0 <=? e) eqn:He.
  { split; [ exact Hv | ]. cbn [JS.ceil]. rewrite He. reflexivity. }
  apply Z.leb_gt in He.
  destruct (Z.pos m mod 2 ^ (- e) =? 0) eqn:Hr.
  { split; [ exact Hv | ]. cbn [JS.ceil].
    apply Z.leb_gt in He. rewrite He, Hr. reflexivity. }
  assert (Hd : 2 <= 2 ^ (- e)).
  { change 2 with (2 ^ 1) at 1. apply Z.pow_le_mono_r; lia. }
  assert (Hq : 0 <= Z.pos m / 2 ^ (- e) < 2 ^ 52).
  { split; [ apply Z.div_pos; lia | ].
    apply Z.div_lt_upper_bound; [ lia | ].
    change (2 ^ 53) with (2 * 2 ^ 52) in Hm. nia. }
  destruct s; apply of_int_canonical; lia.
Qed.

Lemma ltb_zero_iff (x : JS.number) :
  JS.ltb JS.zero x = true
  <-> x = S754_infinity false \/ exists m e, x = S754_finite false m e.
Proof.
  destruct x as [s | s | | s m e]; try destruct s; cbn; split;
    try discriminate; try (intros [H | [m' [e' H]]]; discriminate);
    eauto.
Qed.

Lemma ceil_positive (x : JS.number) :
  JS.ltb JS.zero x = true -> JS.ltb JS.zero (JS.ceil x) = true.
Proof.
  intros H. apply ltb_zero_iff in H as [-> | [m [e ->]]]; [ reflexivity | ].
  cbn [JS.ceil].
  destruct (0 <=? e) eqn:He; [ reflexivity | ]. apply Z.leb_gt in He.
  destruct (Z.pos m mod 2 ^ (- e) =? 0); [ reflexivity | ].
  assert (Hq : 0 <= Z.pos m / 2 ^ (- e)).
  { apply Z.div_pos; [ lia | apply Z.pow_pos_nonneg; lia ]. }
  destruct (Z.pos m / 2 ^ (- e) + 1) as [ | p | p] eqn:E; try lia.
  reflexivity.
Qed.

(** ** Reading back printed digits *)

Lemma scan_digits_app (ds rest : list ascii) (acc cnt : Z) :
  all_digits ds -> stops rest ->
  JS.scan_digits acc cnt (ds ++ rest)
  = (digits_value acc ds, cnt + Z.of_nat (List.length ds), rest).
Proof.
  intros Hds Hrest. revert acc cnt.
  induction Hds as [ | c ds Hc _ IH]; intros acc cnt.
  - cbn [app List.length digits_value fold_left].
    replace (cnt + Z.of_nat 0) with cnt by lia.
    destruct rest as [ | r rest]; [ reflexivity | ].
    cbn in Hrest. cbn [JS.scan_digits]. rewrite Hrest. reflexivity.
  - cbn [app JS.scan_digits]. rewrite Hc, IH.
    unfold digits_value. cbn [fold_left List.length].
    f_equal. f_equal. lia.
Qed.

Lemma digits_value_app (acc : Z) (l1 l2 : list ascii) :
  digits_value acc (l1 ++ l2) = digits_value (digits_value acc l1) l2.
Proof. apply fold_left_app. Qed.

Lemma digits_value_zeros (acc : Z) (n : nat) :
  digits_value acc (repeat "0"%char n) = acc * 10 ^ Z.of_nat n.
Proof.
  revert acc. induction n as [ | n IH]; intros acc.
  - cbn. lia.
  - cbn [repeat]. unfold digits_value in *. cbn [fold_left]. rewrite IH.
    change (JS.digit_val "0") with 0.
    rewrite Nat2Z.inj_succ, Z.pow_succ_r by lia. ring.
Qed.

Lemma all_digits_zeros (n : nat) : all_digits (repeat "0"%char n).
Proof. induction n; constructor; [ reflexivity | assumption ]. Qed.

Lemma chars_of_uint_digits (d : Decimal.uint) : all_digits (JS.chars_of_uint d).
Proof. induction d; constructor; solve [ reflexivity | assumption ]. Qed.

Lemma chars_of_uint_acc (d : Decimal.uint) (acc : positive) :
  Zpos (Pos.of_uint_acc d acc) = digits_value (Zpos acc) (JS.chars_of_uint d).
Proof.
  revert acc.
  induction d as [ | d IH | d IH | d IH | d IH | d IH | d IH | d IH
                   | d IH | d IH | d IH ];
    intros acc; cbn [Pos.of_uint_acc JS.chars_of_uint]; [ reflexivity | .. ];
    rewrite IH; unfold digits_value; cbn [fold_left]; f_equal;
    match goal with
    | |- _ = _ + JS.digit_val ?c =>
        let v := eval vm_compute in (JS.digit_val c) in
        change (JS.digit_val c) with v
    end; lia.
Qed.

Lemma chars_of_uint_value (d : Decimal.uint) :
  digits_value 0 (JS.chars_of_uint d) = Z.of_N (Pos.of_uint d).
Proof.
  induction d as [ | d IH | d IH | d IH | d IH | d IH | d IH | d IH
                   | d IH | d IH | d IH ];
    cbn [Pos.of_uint JS.chars_of_uint]; [ reflexivity | exact IH | .. ];
    cbn [Z.of_N]; rewrite chars_of_uint_acc; reflexivity.
Qed.

Lemma digits_of_value (n : Z) : 0 <= n -> digits_value 0 (JS.digits_of n) = n.
Proof.
  intros Hn. unfold JS.digits_of. rewrite chars_of_uint_value.
  change (Pos.of_uint (N.to_uint (Z.to_N n)))
    with (N.of_uint (N.to_uint (Z.to_N n))).
  rewrite DecimalN.Unsigned.of_to. apply Z2N.id. exact Hn.
Qed.

Lemma digits_of_digits (n : Z) : all_digits (JS.digits_of n).
Proof. apply chars_of_uint_digits. Qed.

Lemma digits_of_nonempty (n : Z) : JS.digits_of n <> [].
Proof.
  unfold JS.digits_of.
  assert (H : N.to_uint (Z.to_N n) <> Decimal.Nil).
  { destruct (Z.to_N n) as [ | p]; [ discriminate | ].
    apply DecimalPos.Unsigned.to_uint_nonnil. }
  destruct (N.to_uint (Z.to_N n)); [ contradiction | discriminate .. ].
Qed.

(** A digit is none of the other characters the parser looks for. *)
Lemma digit_not_special (c : ascii) :
  JS.is_digit c = true ->
  JS.is_space c = false /\ JS.ascii_eqb c "-" = false
  /\ JS.ascii_eqb c "+" = false /\ JS.ascii_eqb c "." = false
  /\ JS.ascii_eqb "I" c = false.
Proof.
  unfold JS.is_digit, JS.is_space, JS.ascii_eqb.
  change (JS.code "-") with 45. change (JS.code "+") with 43.
  change (JS.code ".") with 46. change (JS.code "I") with 73.
  generalize (JS.code c). intros n H.
  apply andb_true_iff in H as [H1 H2].
  apply Z.leb_le in H1. apply Z.leb_le in H2.
  repeat split;
    repeat match goal with
           | |- context [?a <=? ?b] => destruct (Z.leb_spec a b)
           | |- context [?a =? ?b] => destruct (Z.eqb_spec a b)
           end; cbn; solve [ reflexivity | lia ].
Qed.

Lemma parse_chars_digit (c : ascii) (cs : list ascii) :
  JS.is_digit c = true ->
  JS.parse_chars (c :: cs)
  = match JS.parse_unsigned (c :: cs) with Some x => x | None => JS.NaN end.
Proof.
  intros Hc. destruct (digit_not_special c Hc) as (Hs & Hm & Hp & _).
  unfold JS.parse_chars. cbn [JS.trim_start]. rewrite Hs, Hm, Hp.
  reflexivity.
Qed.

Lemma starts_with_Infinity_digit (c : ascii) (cs : list ascii) :
  JS.is_digit c = true ->
  JS.starts_with (list_ascii_of_string "Infinity") (c :: cs) = false.
Proof.
  intros Hc. destruct (digit_not_special c Hc) as (_ & _ & _ & _ & Hi).
  cbn [list_ascii_of_string JS.starts_with]. rewrite Hi. reflexivity.
Qed.

Lemma parse_unsigned_int (ds tail : list ascii) :
  all_digits ds -> ds <> [] -> ends_mantissa tail ->
  JS.parse_unsigned (ds ++ tail)
  = Some (JS.dec_to_number (digits_value 0 ds) (JS.scan_exponent tail)).
Proof.
  intros Hds Hne Htail.
  assert (Hstop : stops tail).
  { destruct tail; [ exact I | apply Htail ]. }
  unfold JS.parse_unsigned.
  destruct ds as [ | d ds']; [ contradiction | ].
  cbn [app]. rewrite starts_with_Infinity_digit by (inversion Hds; assumption).
  change (d :: ds' ++ tail) with ((d :: ds') ++ tail).
  rewrite (scan_digits_app _ _ 0 0 Hds Hstop).
  assert (Hc : (0 + Z.of_nat (List.length (d :: ds')) =? 0) = false).
  { apply Z.eqb_neq. cbn [List.length]. lia. }
  destruct tail as [ | c tail'].
  - rewrite Hc. reflexivity.
  - destruct Htail as [_ Hdot]. rewrite Hdot, Hc. reflexivity.
Qed.

Lemma parse_unsigned_frac (ds1 ds2 tail : list ascii) :
  all_digits ds1 -> ds1 <> [] -> all_digits ds2 -> stops tail ->
  JS.parse_unsigned (ds1 ++ "."%char :: ds2 ++ tail)
  = Some (JS.dec_to_number (digits_value 0 (ds1 ++ ds2))
            (JS.scan_exponent tail - Z.of_nat (List.length ds2))).
Proof.
  intros H1 Hne H2 Htail. rewrite digits_value_app.
  unfold JS.parse_unsigned.
  destruct ds1 as [ | d ds1']; [ contradiction | ].
  cbn [app]. rewrite starts_with_Infinity_digit by (inversion H1; assumption).
  change (d :: ds1' ++ "."%char :: ds2 ++ tail)
    with ((d :: ds1') ++ "."%char :: ds2 ++ tail).
  rewrite (scan_digits_app _ _ 0 0 H1) by reflexivity.
  change (JS.ascii_eqb "." ".") with true. cbn iota.
  rewrite (scan_digits_app _ _ _ 0 H2 Htail).
  assert (Hc : (0 + Z.of_nat (List.length (d :: ds1')) =? 0) = false).
  { apply Z.eqb_neq. cbn [List.length]. lia. }
  rewrite Hc. cbn [andb]. reflexivity.
Qed.

(** The exponent part printed by [format_decimal], read back. *)
Lemma scan_exponent_printed (e : Z) :
  JS.scan_exponent
    ("e"%char :: (if e <? 0 then "-"%char else "+"%char)
              :: JS.digits_of (Z.abs e))
  = e.
Proof.
  pose proof (scan_digits_app (JS.digits_of (Z.abs e)) [] 0 0
                (digits_of_digits _) I) as Hscan.
  rewrite app_nil_r, digits_of_value in Hscan by lia.
  assert (Hlen : (0 <? 0 + Z.of_nat (List.length (JS.digits_of (Z.abs e)))) = true).
  { apply Z.ltb_lt. pose proof (digits_of_nonempty (Z.abs e)) as Hne.
    destruct (JS.digits_of (Z.abs e)); [ contradiction | cbn [List.length]; lia ]. }
  unfold JS.scan_exponent.
  change (JS.ascii_eqb "e" "e") with true. cbn [orb].
  destruct (e <? 0) eqn:He.
  - change (JS.ascii_eqb "-" "-") with true. cbn iota.
    rewrite Hscan, Hlen. apply Z.ltb_lt in He. lia.
  - change (JS.ascii_eqb "+" "-") with false.
    change (JS.ascii_eqb "+" "+") with true. cbn iota.
    rewrite Hscan, Hlen. apply Z.ltb_ge in He. lia.
Qed.

Lemma exponent_ends_mantissa (cs : list ascii) : ends_mantissa ("e"%char :: cs).
Proof. split; reflexivity. Qed.

Lemma all_digits_head (c : ascii) (cs : list ascii) :
  all_digits (c :: cs) -> JS.is_digit c = true.
Proof. intros H. inversion H. assumption. Qed.

(** [parseFloat] reads the layout of [format_decimal] back as the decimal
    it was given. *)
Lemma parse_format_decimal (c j : Z) :
  0 < c ->
  JS.parse_chars (JS.format_decimal c j) = JS.dec_to_number c j.
Proof.
  intros Hc. unfold JS.format_decimal.
  pose proof (digits_of_digits c) as Hds.
  pose proof (digits_of_nonempty c) as Hne.
  pose proof (digits_of_value c ltac:(lia)) as Hval.
  set (ds := JS.digits_of c) in *.
  set (k := Z.of_nat (List.length ds)).
  assert (Hk : 0 < k).
  { unfold k. destruct ds; [ contradiction | cbn [List.length]; lia ]. }
  destruct ((k <=? k + j) && (k + j <=? 21)) eqn:C1.
  { (* digits followed by zeros *)
    apply andb_true_iff in C1 as [C1 _]. apply Z.leb_le in C1.
    replace (k + j - k) with j by ring.
    assert (Hall : all_digits (ds ++ repeat "0"%char (Z.to_nat j))).
    { apply Forall_app. split; [ exact Hds | apply all_digits_zeros ]. }
    assert (Hne' : ds ++ repeat "0"%char (Z.to_nat j) <> []).
    { destruct ds; [ contradiction | discriminate ]. }
    pose proof (parse_unsigned_int _ [] Hall Hne' I) as P.
    rewrite app_nil_r in P.
    destruct (ds ++ repeat "0"%char (Z.to_nat j)) as [ | d0 rest] eqn:E;
      [ contradiction | ].
    rewrite parse_chars_digit by (apply (all_digits_head _ _ Hall)).
    rewrite P. rewrite <- E, digits_value_app, Hval, digits_value_zeros.
    rewrite Z2Nat.id by lia. cbn [JS.scan_exponent].
    unfold JS.dec_to_number.
    assert (P10 : 0 < 10 ^ j) by (apply Z.pow_pos_nonneg; lia).
    destruct (c * 10 ^ j <=? 0) eqn:E1; [ apply Z.leb_le in E1; nia | ].
    destruct (c <=? 0) eqn:E2; [ apply Z.leb_le in E2; lia | ].
    change (0 <=? 0) with true. cbn iota.
    destruct (0 <=? j) eqn:E3; [ | apply Z.leb_gt in E3; lia ].
    f_equal. change (10 ^ 0) with 1. ring. }
  destruct ((0 <? k + j) && (k + j <=? 21)) eqn:C2.
  { (* a decimal point inside the digits *)
    apply andb_true_iff in C2 as [C2 C2']. apply Z.ltb_lt in C2.
    apply Z.leb_le in C2'.
    apply andb_false_iff in C1.
    assert (Hj : j < 0).
    { destruct C1 as [C1 | C1]; apply Z.leb_gt in C1; lia. }
    clear C1.
    set (n := Z.to_nat (k + j)).
    assert (Hn : (0 < n < List.length ds)%nat) by (unfold n, k in *; lia).
    pose proof (firstn_skipn n ds) as Hsplit.
    assert (H12 : all_digits (firstn n ds) /\ all_digits (skipn n ds)).
    { apply Forall_app. rewrite Hsplit. exact Hds. }
    destruct H12 as [H1 H2].
    assert (Hne1 : firstn n ds <> []).
    { intros E. apply (f_equal (@List.length ascii)) in E.
      rewrite length_firstn in E. cbn in E. lia. }
    pose proof (parse_unsigned_frac _ _ [] H1 Hne1 H2 I) as P.
    rewrite app_nil_r in P.
    destruct (firstn n ds) as [ | d0 rest] eqn:E; [ contradiction | ].
    cbn [app] in *.
    rewrite parse_chars_digit by (apply (all_digits_head _ _ H1)).
    rewrite P, Hsplit, Hval. cbn [JS.scan_exponent].
    rewrite length_skipn. f_equal. unfold n, k in *. lia. }
  destruct ((-6 <? k + j) && (k + j <=? 0)) eqn:C3.
  { (* zeros between the decimal point and the digits *)
    apply andb_true_iff in C3 as [_ C3]. apply Z.leb_le in C3.
    assert (Hz : all_digits (repeat "0"%char (Z.to_nat (- (k + j))) ++ ds)).
    { apply Forall_app. split; [ apply all_digits_zeros | exact Hds ]. }
    pose proof (parse_unsigned_frac ["0"%char] _ []
                  ltac:(constructor; [ reflexivity | constructor ])
                  ltac:(discriminate) Hz I) as P.
    rewrite app_nil_r in P. cbn [app] in P.
    rewrite parse_chars_digit by reflexivity.
    rewrite P. change ("0"%char :: ?l) with (["0"%char] ++ l).
    rewrite digits_value_app.
    change (digits_value 0 ["0"%char]) with 0.
    rewrite digits_value_app, digits_value_zeros, Z.mul_0_l, Hval.
    cbn [JS.scan_exponent]. rewrite length_app, repeat_length.
    f_equal. unfold k in *. lia. }
  (* exponent notation *)
  pose proof (scan_exponent_printed (k + j - 1)) as Hex.
  set (ex := "e"%char :: (if k + j - 1 <? 0 then "-"%char else "+"%char)
                      :: JS.digits_of (Z.abs (k + j - 1))) in *.
  destruct ds as [ | d0 [ | d1 rest]] eqn:Eds; [ contradiction | | ].
  - pose proof (parse_unsigned_int [d0] ex Hds ltac:(discriminate)
                  (exponent_ends_mantissa _)) as P.
    cbn [app] in P.
    rewrite parse_chars_digit by (apply (all_digits_head _ _ Hds)).
    rewrite P, Hval, Hex. f_equal. unfold k. cbn [List.length]. lia.
  - assert (H1 : all_digits [d0]).
    { constructor; [ apply (all_digits_head _ _ Hds) | constructor ]. }
    assert (H2 : all_digits (d1 :: rest)) by (inversion Hds; assumption).
    pose proof (parse_unsigned_frac [d0] (d1 :: rest) ex H1
                  ltac:(discriminate) H2 ltac:(reflexivity)) as P.
    cbn [app] in P.
    rewrite parse_chars_digit by (apply (all_digits_head _ _ Hds)).
    cbn [app]. rewrite P, Hval, Hex. f_equal.
    unfold k. cbn [List.length]. lia.
Qed.

(** ** The printed decimal denotes the number *)

Lemma rounds_to_true (m : positive) (e c j : Z) :
  JS.rounds_to m e c j = true ->
  0 < c /\ JS.dec_to_number c j = S754_finite false m e.
Proof.
  unfold JS.rounds_to. intros H. split.
  - destruct (Z_lt_ge_dec 0 c) as [Hc | Hc]; [ exact Hc | ].
    unfold JS.dec_to_number in H.
    destruct (c <=? 0) eqn:E; [ discriminate H | apply Z.leb_gt in E; lia ].
  - destruct (JS.dec_to_number c j) as [s | s | | s m' e']; try discriminate H.
    destruct s; [ discriminate H | ].
    apply andb_true_iff in H as [Hm He].
    apply Pos.eqb_eq in Hm. apply Z.eqb_eq in He. congruence.
Qed.

Lemma try_grid_sound (m : positive) (e j c : Z) :
  JS.try_grid m e j = Some c -> JS.rounds_to m e c j = true.
Proof.
  unfold JS.try_grid. destruct (JS.scaled m e j) as [num den].
  destruct (JS.rounds_to m e (num / den) j) eqn:Hlo;
    destruct (JS.rounds_to m e (num / den + 1) j) eqn:Hhi;
    try discriminate.
  - destruct (2 * (num mod den) ?= den); [ destruct (Z.even (num / den)) | | ];
      intros [= <-]; assumption.
  - intros [= <-]; assumption.
  - intros [= <-]; assumption.
Qed.

Lemma search_sound (fuel : nat) (m : positive) (e j c j' : Z) :
  JS.search fuel m e j = Some (c, j') -> JS.rounds_to m e c j' = true.
Proof.
  revert j. induction fuel as [ | fuel IH]; intros j; cbn [JS.search].
  - discriminate.
  - destruct (JS.try_grid m e j) as [c0 | ] eqn:G.
    + intros [= <- <-]. apply (try_grid_sound _ _ _ _ G).
    + apply IH.
Qed.

Lemma exact_decimal_rounds (m : positive) (e : Z) :
  JS.valid (S754_finite false m e) = true ->
  JS.rounds_to m e (fst (JS.exact_decimal m e)) (snd (JS.exact_decimal m e))
  = true.
Proof.
  intros Hv. pose proof (round_ratio_exact m e Hv) as Hex.
  unfold JS.rounds_to, JS.exact_decimal, JS.dec_to_number.
  destruct (0 <=? e) eqn:He; cbn [fst snd].
  - apply Z.leb_le in He.
    destruct (pow2_num_nonneg e He) as [En Ed]. rewrite En, Ed in Hex.
    pose proof (Z.pow_pos_nonneg 2 e ltac:(lia) He) as P2.
    destruct (Z.pos m * 2 ^ e <=? 0) eqn:E0; [ apply Z.leb_le in E0; nia | ].
    change (0 <=? 0) with true. cbn iota. change (10 ^ 0) with 1.
    rewrite Z.mul_1_r, Hex, Pos.eqb_refl, Z.eqb_refl. reflexivity.
  - rewrite He. apply Z.leb_gt in He.
    destruct (pow2_den_nonpos e ltac:(lia)) as [En Ed]. rewrite En, Ed in Hex.
    pose proof (Z.pow_pos_nonneg 5 (- e) ltac:(lia) ltac:(lia)) as P5.
    pose proof (Z.pow_pos_nonneg 2 (- e) ltac:(lia) ltac:(lia)) as P2.
    destruct (Z.pos m * 5 ^ (- e) <=? 0) eqn:E0; [ apply Z.leb_le in E0; nia | ].
    change 10 with (2 * 5). rewrite Z.pow_mul_l.
    rewrite round_ratio_scale by lia.
    rewrite Z.mul_1_r in Hex.
    rewrite Hex, Pos.eqb_refl, Z.eqb_refl. reflexivity.
Qed.

Lemma shortest_rounds (m : positive) (e : Z) :
  JS.valid (S754_finite false m e) = true ->
  JS.rounds_to m e (fst (JS.shortest m e)) (snd (JS.shortest m e)) = true.
Proof.
  intros Hv. unfold JS.shortest.
  destruct (JS.search _ m e (JS.decimal_top m e)) as [[c j] | ] eqn:S.
  - cbn [fst snd]. apply (search_sound _ _ _ _ _ _ S).
  - apply exact_decimal_rounds. exact Hv.
Qed.

(** The search of [shortest] always finds digits: at the latest, the exact
    expansion is met at the lowest exponent. *)
Lemma try_grid_exact (m : positive) (e : Z) :
  JS.valid (S754_finite false m e) = true ->
  JS.try_grid m e (Z.min 0 e) <> None.
Proof.
  intros Hv. pose proof (exact_decimal_rounds m e Hv) as Hex.
  unfold JS.exact_decimal in Hex. unfold JS.try_grid, JS.scaled.
  assert (Hlo : JS.rounds_to m e
                  (Z.pos m * JS.pow2_num e * 10 ^ Z.max 0 (- Z.min 0 e)
                   / (JS.pow2_den e * 10 ^ Z.max 0 (Z.min 0 e)))
                  (Z.min 0 e) = true).
  { destruct (0 <=? e) eqn:He; cbn [fst snd] in Hex.
    - apply Z.leb_le in He.
      destruct (pow2_num_nonneg e He) as [-> ->].
      rewrite Z.min_l by lia. change (Z.max 0 (- 0)) with 0.
      change (Z.max 0 0) with 0. change (10 ^ 0) with 1.
      rewrite !Z.mul_1_r, Z.div_1_r. exact Hex.
    - apply Z.leb_gt in He.
      destruct (pow2_den_nonpos e ltac:(lia)) as [-> ->].
      rewrite Z.min_r by lia. rewrite Z.max_r by lia. rewrite Z.max_l by lia.
      change (10 ^ 0) with 1. rewrite !Z.mul_1_r.
      change 10 with (5 * 2). rewrite Z.pow_mul_l, Z.mul_assoc.
      rewrite Z.div_mul; [ exact Hex | ].
      pose proof (Z.pow_pos_nonneg 2 (- e) ltac:(lia) ltac:(lia)). lia. }
  rewrite Hlo.
  repeat match goal with
         | |- context [match ?x with _ => _ end] => destruct x
         end; discriminate.
Qed.

Lemma search_reaches (fuel : nat) (m : positive) (e j : Z) (i : nat) :
  (i < fuel)%nat -> JS.try_grid m e (j - Z.of_nat i) <> None ->
  JS.search fuel m e j <> None.
Proof.
  revert j i. induction fuel as [ | fuel IH]; intros j i Hi Hg; [ lia | ].
  cbn [JS.search].
  destruct (JS.try_grid m e j) as [c | ] eqn:G; [ discriminate | ].
  destruct i as [ | i].
  - replace (j - Z.of_nat 0) with j in Hg by lia. congruence.
  - apply (IH (j - 1) i); [ lia | ].
    replace (j - 1 - Z.of_nat i) with (j - Z.of_nat (S i)) by lia. exact Hg.
Qed.

Lemma decimal_top_above (m : positive) (e : Z) : Z.min 0 e < JS.decimal_top m e.
Proof.
  unfold JS.decimal_top.
  pose proof (Z.log2_nonneg (Zpos m)) as Hl.
  set (b := Z.log2 (Z.pos m) + e + 1).
  destruct (0 <=? b) eqn:Hb.
  - apply Z.leb_le in Hb.
    assert (0 <= b * 30103 / 100000) by (apply Z.div_pos; lia). lia.
  - apply Z.leb_gt in Hb.
    assert (b <= b * 30102 / 100000).
    { apply Z.div_le_lower_bound; lia. }
    lia.
Qed.

Lemma shortest_found (m : positive) (e : Z) :
  JS.valid (S754_finite false m e) = true ->
  JS.search (Z.to_nat (JS.decimal_top m e - Z.min 0 e + 1)) m e
    (JS.decimal_top m e)
  = Some (JS.shortest m e).
Proof.
  intros Hv. unfold JS.shortest.
  pose proof (decimal_top_above m e) as Htop.
  destruct (JS.search _ m e (JS.decimal_top m e)) as [r | ] eqn:S;
    [ reflexivity | ].
  exfalso. revert S.
  apply (search_reaches _ m e _ (Z.to_nat (JS.decimal_top m e - Z.min 0 e)));
    [ lia | ].
  rewrite Z2Nat.id by lia.
  replace (JS.decimal_top m e - (JS.decimal_top m e - Z.min 0 e))
    with (Z.min 0 e) by ring.
  apply try_grid_exact. exact Hv.
Qed.

(** Printing a strictly positive number and reading it back gives the
    number. *)
Lemma parseFloat_toString (x : JS.number) :
  JS.valid x = true -> JS.ltb JS.zero x = true ->
  JS.parseFloat (JS.toString x) = x.
Proof.
  intros Hv Hpos. unfold JS.parseFloat, JS.toString.
  rewrite list_ascii_of_string_of_list_ascii.
  apply ltb_zero_iff in Hpos as [-> | [m [e ->]]]; [ reflexivity | ].
  cbn [JS.number_to_chars app].
  pose proof (shortest_rounds m e Hv) as Hr.
  destruct (JS.shortest m e) as [c j]. cbn [fst snd] in Hr.
  apply rounds_to_true in Hr as [Hc Hd].
  rewrite parse_format_decimal by exact Hc. exact Hd.
Qed.

(** ** The validation gate *)

Lemma positive_iff (x : JS.number) :
  strictly_positive x <-> JS.isNaN x = false /\ JS.leb x JS.zero = false.
Proof.
  unfold strictly_positive.
  destruct x as [s | s | | s m e]; try destruct s; cbn; intuition congruence.
Qed.

Lemma truthy_string_iff (s : string) : truthy_string s = true <-> s <> ""%string.
Proof.
  unfold truthy_string. rewrite negb_true_iff. apply String.eqb_neq.
Qed.

Lemma parseFloat_empty : JS.parseFloat "" = JS.NaN.
Proof. reflexivity. Qed.

Lemma positive_parse_nonempty (s : string) :
  strictly_positive (JS.parseFloat s) -> s <> ""%string.
Proof.
  intros H ->. rewrite parseFloat_empty in H. discriminate H.
Qed.

Lemma field_ok_iff (s : string) :
  field_ok s <->
  truthy_string s = true /\ JS.isNaN (JS.parseFloat s) = false
  /\ JS.leb (JS.parseFloat s) JS.zero = false.
Proof.
  unfold field_ok. rewrite truthy_string_iff, positive_iff. tauto.
Qed.

Lemma validateForm_true_iff (fd : ShipmentFormData.t) :
  fst (validateForm fd) = true <-> draft_ok fd.
Proof.
  unfold draft_ok. rewrite !field_ok_iff. unfold validateForm.
  destruct (truthy_string (ShipmentFormData.length fd));
    destruct (truthy_string (ShipmentFormData.width fd));
    destruct (truthy_string (ShipmentFormData.height fd));
    destruct (truthy_string (ShipmentFormData.weight fd));
    cbn [negb orb fst]; try (intuition congruence).
  destruct (JS.isNaN (JS.parseFloat (ShipmentFormData.length fd)));
    destruct (JS.isNaN (JS.parseFloat (ShipmentFormData.width fd)));
    destruct (JS.isNaN (JS.parseFloat (ShipmentFormData.height fd)));
    destruct (JS.isNaN (JS.parseFloat (ShipmentFormData.weight fd)));
    cbn [negb orb fst]; try (intuition congruence).
  destruct (JS.leb (JS.parseFloat (ShipmentFormData.length fd)) JS.zero);
    destruct (JS.leb (JS.parseFloat (ShipmentFormData.width fd)) JS.zero);
    destruct (JS.leb (JS.parseFloat (ShipmentFormData.height fd)) JS.zero);
    destruct (JS.leb (JS.parseFloat (ShipmentFormData.weight fd)) JS.zero);
    cbn [negb orb fst]; intuition congruence.
Qed.

Lemma validateForm_false_log (fd : ShipmentFormData.t) :
  fst (validateForm fd) = false ->
  exists msg, snd (validateForm fd) = [toast_error msg].
Proof.
  unfold validateForm.
  repeat match goal with
         | |- context [if ?b then _ else _] => destruct b
         end; cbn [fst snd]; intros H; try discriminate H; eauto.
Qed.

Lemma validateForm_true_log (fd : ShipmentFormData.t) :
  fst (validateForm fd) = true -> validateForm fd = (true, []).
Proof.
  unfold validateForm.
  repeat match goal with
         | |- context [if ?b then _ else _] => destruct b
         end; cbn [fst snd]; intros H; try discriminate H; reflexivity.
Qed.

Lemma handleAddShipment_rejected (nanoid : string) (st : State) :
  fst (validateForm (formData st)) = false ->
  handleAddShipment nanoid st = (st, snd (validateForm (formData st))).
Proof.
  unfold handleAddShipment. destruct (validateForm (formData st)) as [ok log].
  cbn [fst snd]. intros ->. reflexivity.
Qed.

Lemma handleAddShipment_accepted (nanoid : string) (st : State) :
  fst (validateForm (formData st)) = true ->
  handleAddShipment nanoid st =
  if truthy (editingId st) then
    (mkState
       (map (fun s => if strict_eq (Shipment.id s) (editingId st)
                      then newShipment nanoid st else s)
            (shipments st))
       None emptyForm,
     [toast_success "Package updated"])
  else
    (mkState (shipments st ++ [newShipment nanoid st]) (editingId st)
       emptyForm,
     [toast_success "Package added"]).
Proof.
  intros H. unfold handleAddShipment.
  rewrite (validateForm_true_log _ H). reflexivity.
Qed.

(** ** Validation (C1) *)

(** C1, as stated, fails: the length field [Infinity] does not parse to a
    finite number, yet the draft passes [validateForm] and submitting it
    appends a record to the empty store. *)
Lemma validateForm_accepts_Infinity :
  JS.isFinite (JS.parseFloat (ShipmentFormData.length draft_Infinity)) = false
  /\ fst (validateForm draft_Infinity) = true
  /\ shipments (fst (handleAddShipment "V1StGXR8_Z5jdHi6B-myT"
                       (mkState [] None draft_Infinity)))
     <> shipments (mkState [] None draft_Infinity).
Proof.
  split; [ | split ].
  - vm_compute. reflexivity.
  - vm_compute. reflexivity.
  - vm_compute. discriminate.
Qed.

(** C1 (amended): a draft passes [validateForm] exactly when each of its four
    numeric fields is non-empty, does not parse to NaN and parses to a value
    strictly greater than zero ([+Infinity] included); submitting a draft
    that does not pass leaves the whole state, and so the collection,
    unchanged, and reports one error toast. *)
Theorem validateForm_gate (nanoid : string) (st : State) :
  (fst (validateForm (formData st)) = true <-> draft_ok (formData st))
  /\ (~ draft_ok (formData st) ->
      exists msg, handleAddShipment nanoid st = (st, [toast_error msg])).
Proof.
  split.
  - apply validateForm_true_iff.
  - intros Hbad.
    assert (Hv : fst (validateForm (formData st)) = false).
    { destruct (fst (validateForm (formData st))) eqn:E; [ | reflexivity ].
      apply validateForm_true_iff in E. contradiction. }
    destruct (validateForm_false_log _ Hv) as [msg Hmsg].
    exists msg. rewrite (handleAddShipment_rejected _ _ Hv), Hmsg.
    reflexivity.
Qed.

Lemma validateForm_gate_witness :
  exists msg,
    handleAddShipment "V1StGXR8_Z5jdHi6B-myT" (mkState [] None draft_zero)
    = (mkState [] None draft_zero, [toast_error msg]).
Proof.
  apply (proj2 (validateForm_gate "V1StGXR8_Z5jdHi6B-myT"
                  (mkState [] None draft_zero))).
  intros [[_ [_ H]] _]. vm_compute in H. discriminate H.
Defined.

(** ** Adding (C2) *)

(** C2: when the four numeric fields of the draft parse to strictly positive
    numbers and no record is being edited, submitting appends exactly one
    record, whose dimensions are the ceilings of the parsed fields, whose
    weight is the parsed weight and whose reference is the draft's. *)
Theorem add_appends_ceiled_record (nanoid : string) (st : State) :
  truthy (editingId st) = false ->
  strictly_positive (JS.parseFloat (ShipmentFormData.length (formData st))) ->
  strictly_positive (JS.parseFloat (ShipmentFormData.width (formData st))) ->
  strictly_positive (JS.parseFloat (ShipmentFormData.height (formData st))) ->
  strictly_positive (JS.parseFloat (ShipmentFormData.weight (formData st))) ->
  shipments (fst (handleAddShipment nanoid st))
  = shipments st ++
    [Shipment.mk nanoid
       (JS.ceil (JS.parseFloat (ShipmentFormData.length (formData st))))
       (JS.ceil (JS.parseFloat (ShipmentFormData.width (formData st))))
       (JS.ceil (JS.parseFloat (ShipmentFormData.height (formData st))))
       (JS.parseFloat (ShipmentFormData.weight (formData st)))
       (ShipmentFormData.reference (formData st))]
  /\ List.length (shipments (fst (handleAddShipment nanoid st)))
     = S (List.length (shipments st)).
Proof.
  intros Hidle Hl Hw Hh Hwt.
  assert (Hok : draft_ok (formData st)).
  { unfold draft_ok, field_ok.
    repeat split;
      solve [ apply positive_parse_nonempty; assumption
            | apply positive_iff; assumption
            | assumption ]. }
  apply validateForm_true_iff in Hok.
  rewrite (handleAddShipment_accepted _ _ Hok), Hidle. cbn [fst shipments].
  assert (Hid : newShipment nanoid st
                = Shipment.mk nanoid
                    (JS.ceil (JS.parseFloat (ShipmentFormData.length (formData st))))
                    (JS.ceil (JS.parseFloat (ShipmentFormData.width (formData st))))
                    (JS.ceil (JS.parseFloat (ShipmentFormData.height (formData st))))
                    (JS.parseFloat (ShipmentFormData.weight (formData st)))
                    (ShipmentFormData.reference (formData st))).
  { unfold newShipment. unfold truthy in Hidle.
    destruct (editingId st) as [i | ]; [ rewrite Hidle | ]; reflexivity. }
  rewrite Hid. split; [ reflexivity | ].
  rewrite length_app. cbn. lia.
Qed.

Lemma add_appends_ceiled_record_witness :
  shipments (fst (handleAddShipment "V1StGXR8_Z5jdHi6B-myT"
                    (mkState [] None draft_example)))
  = [Shipment.mk "V1StGXR8_Z5jdHi6B-myT"
       (JS.ceil (JS.parseFloat "12.5")) (JS.ceil (JS.parseFloat "8"))
       (JS.ceil (JS.parseFloat "6")) (JS.parseFloat "5.5") "INV-12345"]
  /\ List.length (shipments (fst (handleAddShipment "V1StGXR8_Z5jdHi6B-myT"
                                    (mkState [] None draft_example))))
     = 1%nat.
Proof.
  apply (add_appends_ceiled_record "V1StGXR8_Z5jdHi6B-myT"
           (mkState [] None draft_example));
    vm_compute; reflexivity.
Defined.

Example add_example_record :
  shipments (fst (handleAddShipment "V1StGXR8_Z5jdHi6B-myT"
                    (mkState [] None draft_example)))
  = [Shipment.mk "V1StGXR8_Z5jdHi6B-myT"
       (JS.parseFloat "13") (JS.parseFloat "8") (JS.parseFloat "6")
       (JS.parseFloat "5.5") "INV-12345"].
Proof. vm_compute. reflexivity. Qed.

(** ** Updating in place (C3) *)

Lemma mode_editing (st : State) (id : string) :
  mode st = editing id ->
  editingId st = Some id /\ truthy_string id = true.
Proof.
  unfold mode. destruct (editingId st) as [i | ]; [ | discriminate ].
  destruct (truthy_string i) eqn:E; [ | discriminate ].
  intros [= <-]. split; [ reflexivity | exact E ].
Qed.

Lemma nth_error_map_some {A B : Type} (f : A -> B) (l : list A) (i : nat) (a : A) :
  nth_error l i = Some a -> nth_error (map f l) i = Some (f a).
Proof.
  revert i. induction l as [ | x l IH]; intros [ | i]; cbn; try discriminate.
  - intros [= ->]. reflexivity.
  - apply IH.
Qed.

(** C3: a valid submit while editing [id] keeps the length of the collection
    and the identifier at every position, puts the record built from the
    draft, which carries [id], at the positions whose record carries [id],
    and leaves every other record as it was. *)
Theorem update_in_place (nanoid id : string) (st : State) :
  mode st = editing id ->
  draft_ok (formData st) ->
  List.length (shipments (fst (handleAddShipment nanoid st)))
  = List.length (shipments st)
  /\ map Shipment.id (shipments (fst (handleAddShipment nanoid st)))
     = map Shipment.id (shipments st)
  /\ Shipment.id (newShipment nanoid st) = id
  /\ forall (i : nat) (s : Shipment.t),
       nth_error (shipments st) i = Some s ->
       nth_error (shipments (fst (handleAddShipment nanoid st))) i
       = Some (if (Shipment.id s =? id)%string
               then newShipment nanoid st else s).
Proof.
  intros Hmode Hok. apply mode_editing in Hmode as [Hid Htr].
  apply validateForm_true_iff in Hok.
  rewrite (handleAddShipment_accepted _ _ Hok).
  assert (Hnew : Shipment.id (newShipment nanoid st) = id).
  { unfold newShipment. rewrite Hid, Htr. reflexivity. }
  unfold truthy. rewrite Hid, Htr. cbn [fst shipments strict_eq].
  split; [ apply length_map | ].
  split; [ | split; [ exact Hnew | ] ].
  - rewrite map_map. apply map_ext. intros s.
    destruct (Shipment.id s =? id)%string eqn:E; [ | reflexivity ].
    apply String.eqb_eq in E. congruence.
  - intros i s Hs.
    apply (nth_error_map_some
             (fun s0 => if (Shipment.id s0 =? id)%string
                        then newShipment nanoid st else s0) _ _ _ Hs).
Qed.

Lemma update_in_place_witness :
  List.length (shipments (fst (handleAddShipment "x" state_editing_a)))
  = 2%nat
  /\ map Shipment.id (shipments (fst (handleAddShipment "x" state_editing_a)))
     = ["V1StGXR8_Z5jdHi6B-myT"; "Uakgb_J5m9g-0JDMbcJqL"]%string
  /\ Shipment.id (newShipment "x" state_editing_a)
     = "V1StGXR8_Z5jdHi6B-myT"%string
  /\ forall (i : nat) (s : Shipment.t),
       nth_error [first_record; second_record] i = Some s ->
       nth_error (shipments (fst (handleAddShipment "x" state_editing_a))) i
       = Some (if (Shipment.id s =? "V1StGXR8_Z5jdHi6B-myT")%string
               then newShipment "x" state_editing_a else s).
Proof.
  apply (update_in_place "x" "V1StGXR8_Z5jdHi6B-myT" state_editing_a).
  - reflexivity.
  - unfold draft_ok, field_ok, strictly_positive.
    repeat split; solve [ discriminate | vm_compute; reflexivity ].
Defined.

(** ** Removing (C4) *)

Lemma filter_absent (id : string) (l : list Shipment.t) :
  ~ In id (map Shipment.id l) ->
  filter (fun s => negb (Shipment.id s =? id)%string) l = l.
Proof.
  induction l as [ | s l IH]; cbn; intros H; [ reflexivity | ].
  destruct (Shipment.id s =? id)%string eqn:E.
  - apply String.eqb_eq in E. tauto.
  - cbn. rewrite IH; [ reflexivity | tauto ].
Qed.

Lemma filter_present (id : string) (l : list Shipment.t) :
  NoDup (map Shipment.id l) -> In id (map Shipment.id l) ->
  S (List.length (filter (fun s => negb (Shipment.id s =? id)%string) l))
  = List.length l.
Proof.
  induction l as [ | s l IH]; cbn; intros Hnd Hin; [ contradiction | ].
  inversion Hnd as [ | x xs Hnotin Hnd' ]; subst.
  destruct (Shipment.id s =? id)%string eqn:E; cbn.
  - apply String.eqb_eq in E. subst id.
    rewrite (filter_absent _ _ Hnotin). reflexivity.
  - apply String.eqb_neq in E. destruct Hin as [Hin | Hin]; [ contradiction | ].
    rewrite (IH Hnd' Hin). reflexivity.
Qed.

(** C4: in a store whose identifiers are pairwise distinct, deleting [id]
    shortens the collection by exactly one when a record carries [id], and
    leaves it as it was when none does. *)
Theorem remove_by_id (id : string) (st : State) :
  NoDup (ids st) ->
  (In id (ids st) ->
   S (List.length (shipments (fst (handleDelete id st))))
   = List.length (shipments st))
  /\ (~ In id (ids st) ->
      shipments (fst (handleDelete id st)) = shipments st).
Proof.
  intros Hnd. split; intros Hin; cbn [handleDelete fst shipments].
  - apply filter_present; assumption.
  - apply filter_absent; assumption.
Qed.

Lemma remove_by_id_witness :
  S (List.length (shipments (fst (handleDelete "Uakgb_J5m9g-0JDMbcJqL"
                                    state_editing_a))))
  = 2%nat.
Proof.
  apply (proj1 (remove_by_id "Uakgb_J5m9g-0JDMbcJqL" state_editing_a
                  ltac:(repeat constructor; cbn; intuition discriminate))).
  cbn. tauto.
Defined.

(** ** Deleting the record being edited (C5) *)

(** C5, as stated, fails: deleting the record that is being edited returns
    to [idle], but the draft still holds the values loaded by the edit. *)
Lemma delete_keeps_draft :
  mode state_editing_a = editing "V1StGXR8_Z5jdHi6B-myT"
  /\ ~ (mode (fst (handleDelete "V1StGXR8_Z5jdHi6B-myT" state_editing_a)) = idle
        /\ formData (fst (handleDelete "V1StGXR8_Z5jdHi6B-myT" state_editing_a))
           = emptyForm).
Proof.
  split; [ reflexivity | ].
  intros [_ H]. cbn in H. discriminate H.
Qed.

(** C5 (amended): deleting the record that is being edited returns to
    [idle] and removes the records that carry the identifier; the draft is
    left as it was. *)
Theorem delete_edited_record (id : string) (st : State) :
  mode st = editing id ->
  mode (fst (handleDelete id st)) = idle
  /\ editingId (fst (handleDelete id st)) = None
  /\ formData (fst (handleDelete id st)) = formData st
  /\ ~ In id (ids (fst (handleDelete id st))).
Proof.
  intros Hmode. apply mode_editing in Hmode as [Hid _].
  unfold handleDelete, mode, ids. cbn [fst editingId formData shipments].
  rewrite Hid. cbn [strict_eq]. rewrite String.eqb_refl.
  repeat split.
  rewrite in_map_iff. intros [s [Hs Hin]].
  apply filter_In in Hin as [_ Hne].
  rewrite <- Hs, String.eqb_refl in Hne. discriminate Hne.
Qed.

Lemma delete_edited_record_witness :
  mode (fst (handleDelete "V1StGXR8_Z5jdHi6B-myT" state_editing_a)) = idle
  /\ editingId (fst (handleDelete "V1StGXR8_Z5jdHi6B-myT" state_editing_a))
     = None
  /\ formData (fst (handleDelete "V1StGXR8_Z5jdHi6B-myT" state_editing_a))
     = formData state_editing_a
  /\ ~ In "V1StGXR8_Z5jdHi6B-myT"%string
         (ids (fst (handleDelete "V1StGXR8_Z5jdHi6B-myT" state_editing_a))).
Proof.
  apply (delete_edited_record "V1StGXR8_Z5jdHi6B-myT" state_editing_a).
  reflexivity.
Defined.

(** ** Cancelling (C6) *)

(** C6: the Cancel button returns to [idle], resets the five draft fields to
    empty strings and leaves the collection as it was. *)
Theorem cancel_resets_draft (st : State) :
  mode (fst (handleCancel st)) = idle
  /\ formData (fst (handleCancel st)) = ShipmentFormData.mk "" "" "" "" ""
  /\ shipments (fst (handleCancel st)) = shipments st.
Proof. repeat split. Qed.

(** ** Exporting the empty collection (C7) *)

(** C7: on the empty collection the export handler shows one error toast and
    nothing else: the state is unchanged and there is no download, whatever
    [generateCSV] computes. *)
Theorem export_empty_is_noop
  (generateCSV : list Shipment.t -> string) (now : string) (st : State) :
  shipments st = [] ->
  handleGenerateCSV generateCSV now st
  = (st, [toast_error "Add at least one package to generate CSV"]).
Proof.
  intros H. unfold handleGenerateCSV. rewrite H. reflexivity.
Qed.

Lemma export_empty_is_noop_witness :
  handleGenerateCSV (fun _ => "csv"%string) "2025-01-31T10:20:30.000Z" initial
  = (initial, [toast_error "Add at least one package to generate CSV"]).
Proof.
  apply (export_empty_is_noop (fun _ => "csv"%string)
           "2025-01-31T10:20:30.000Z" initial).
  reflexivity.
Defined.

Example export_two_records :
  snd (handleGenerateCSV (fun _ => "csv"%string) "2025-01-31T10:20:30.000Z"
         state_editing_a)
  = [downloadCSV "csv" "fedex_shipments_2025-01-31.csv";
     toast_success "CSV downloaded with 2 packages"].
Proof. vm_compute. reflexivity. Qed.

(** ** The store invariant *)

Lemma length_21_truthy (i : string) :
  String.length i = 21%nat -> truthy_string i = true.
Proof. destruct i; [ discriminate | reflexivity ]. Qed.

Lemma dimension_inv_ceil (s : string) :
  field_ok s -> dimension_inv (JS.ceil (JS.parseFloat s)).
Proof.
  intros (_ & _ & Hpos).
  destruct (ceil_canonical _ (parseFloat_valid s)) as [Hv Hi].
  split; [ exact Hv | split; [ | exact Hi ] ].
  apply ceil_positive. exact Hpos.
Qed.

(** Filtering the store keeps its identifiers pairwise distinct. *)
Lemma filter_ids_distinct (keep : Shipment.t -> bool) (store : list Shipment.t) :
  NoDup (map Shipment.id store) ->
  NoDup (map Shipment.id (filter keep store)).
Proof.
  intros Hnd. induction store as [ | s store IH]; [ constructor | ].
  cbn [map] in Hnd. apply NoDup_cons_iff in Hnd as [Hnew Hrest].
  cbn [filter]. destruct (keep s); [ | exact (IH Hrest) ].
  cbn [map]. apply NoDup_cons; [ | exact (IH Hrest) ].
  intros Hin. apply Hnew.
  apply in_map_iff in Hin as [s' [Hid Hs']].
  apply filter_In in Hs' as [Hs' _].
  rewrite <- Hid. apply in_map. exact Hs'.
Qed.

(** In a store with pairwise distinct identifiers, the identifier names the
    record. *)
Lemma same_id_same_record (store : list Shipment.t) (r1 r2 : Shipment.t) :
  NoDup (map Shipment.id store) ->
  In r1 store -> In r2 store -> Shipment.id r1 = Shipment.id r2 -> r1 = r2.
Proof.
  intros Hnd. induction store as [ | s store IH]; [ intros [] | ].
  cbn [map] in Hnd. apply NoDup_cons_iff in Hnd as [Hnew Hrest].
  intros [<- | H1] [<- | H2] Hid.
  - reflexivity.
  - exfalso. apply Hnew. rewrite Hid. apply in_map. exact H2.
  - exfalso. apply Hnew. rewrite <- Hid. apply in_map. exact H1.
  - exact (IH Hrest H1 H2 Hid).
Qed.

Lemma newShipment_inv (nanoid : string) (st : State) :
  draft_ok (formData st) ->
  dimension_inv (Shipment.length (newShipment nanoid st))
  /\ dimension_inv (Shipment.width (newShipment nanoid st))
  /\ dimension_inv (Shipment.height (newShipment nanoid st))
  /\ JS.valid (Shipment.weight (newShipment nanoid st)) = true
  /\ strictly_positive (Shipment.weight (newShipment nanoid st)).
Proof.
  intros (Hl & Hw & Hh & Hwt). cbn.
  repeat split;
    solve [ apply dimension_inv_ceil; assumption
          | apply parseFloat_valid
          | apply Hwt ].
Qed.

Lemma handleAddShipment_inv (nanoid : string) (st : State) :
  (truthy (editingId st) = false -> nanoid_ok nanoid st) -> store_inv st ->
  store_inv (fst (handleAddShipment nanoid st)).
Proof.
  intros Hnano [Hnd Hall].
  destruct (fst (validateForm (formData st))) eqn:Hv.
  2:{ rewrite (handleAddShipment_rejected _ _ Hv). split; assumption. }
  rewrite (handleAddShipment_accepted _ _ Hv).
  apply validateForm_true_iff in Hv.
  pose proof (newShipment_inv nanoid st Hv) as Hnew.
  destruct (truthy (editingId st)) eqn:Htr; cbn [fst].
  - (* update: identifiers stay where they are *)
    destruct (editingId st) as [e | ] eqn:He; [ | discriminate Htr ].
    cbn [truthy] in Htr.
    assert (Hid : Shipment.id (newShipment nanoid st) = e).
    { unfold newShipment. rewrite He, Htr. reflexivity. }
    split.
    + unfold ids. cbn [shipments]. rewrite map_map.
      erewrite map_ext; [ exact Hnd | ].
      intros s. cbn [strict_eq].
      destruct (Shipment.id s =? e)%string eqn:E; [ | reflexivity ].
      apply String.eqb_eq in E. congruence.
    + cbn [shipments]. apply Forall_map.
      eapply Forall_impl; [ | exact Hall ].
      intros s Hs. cbn [strict_eq].
      destruct (Shipment.id s =? e)%string eqn:E; [ | exact Hs ].
      apply String.eqb_eq in E.
      split; [ | exact Hnew ].
      rewrite Hid, <- E. apply Hs.
  - (* add: the fresh identifier goes last *)
    destruct (Hnano eq_refl) as [Hlen Hfresh].
    assert (Hid : Shipment.id (newShipment nanoid st) = nanoid).
    { unfold newShipment. unfold truthy in Htr.
      destruct (editingId st); [ rewrite Htr | ]; reflexivity. }
    split.
    + unfold ids in *. cbn [shipments]. rewrite map_app. cbn [map].
      rewrite Hid. apply NoDup_app; [ exact Hnd | | ].
      * constructor; [ intros [] | constructor ].
      * intros x Hx [<- | []]. contradiction.
    + cbn [shipments]. apply Forall_app. split; [ exact Hall | ].
      constructor; [ | constructor ].
      split; [ rewrite Hid; exact Hlen | exact Hnew ].
Qed.

Lemma handleDelete_inv (id : string) (st : State) :
  store_inv st -> store_inv (fst (handleDelete id st)).
Proof.
  intros [Hnd Hall]. split; cbn [handleDelete fst shipments ids] in *.
  - apply filter_ids_distinct. exact Hnd.
  - apply Forall_forall. intros s Hs. apply filter_In in Hs as [Hs _].
    revert s Hs. apply Forall_forall. exact Hall.
Qed.

Lemma handleClearAll_inv (confirmed : bool) (st : State) :
  store_inv st -> store_inv (fst (handleClearAll confirmed st)).
Proof.
  intros H. unfold handleClearAll.
  destruct (shipments st); [ exact H | ].
  destruct confirmed; [ | exact H ].
  split; cbn; constructor.
Qed.

(** Every reachable state satisfies the store invariant. *)
Lemma reachable_store_inv (st : State) : reachable st -> store_inv st.
Proof.
  induction 1 as [ | ev st Hreach IH Hen].
  - split; cbn; constructor.
  - destruct ev as [field value | nanoid | shipment | id | | confirmed];
      cbn [step].
    + exact IH.
    + apply handleAddShipment_inv; assumption.
    + exact IH.
    + apply handleDelete_inv; assumption.
    + exact IH.
    + apply handleClearAll_inv; assumption.
Qed.

Lemma reachable_run (evs : list Event) (st : State) :
  reachable st -> all_enabled evs st -> reachable (run evs st).
Proof.
  revert st. induction evs as [ | ev evs IH]; intros st Hr Hen; cbn [run].
  - exact Hr.
  - destruct Hen as [Hev Hrest]. apply IH; [ | exact Hrest ].
    apply reachable_step; assumption.
Qed.

Lemma state_two_reachable : reachable state_two.
Proof.
  apply reachable_run; [ apply reachable_initial | ].
  cbn [session_add_two all_enabled enabled].
  repeat split; try reflexivity.
  - vm_compute. intros [].
  - vm_compute. intros [E | []]. discriminate E.
Qed.

Lemma state_two_editing_reachable : reachable state_two_editing.
Proof.
  apply reachable_step; [ apply state_two_reachable | exact I ].
Qed.

Example state_two_shipments :
  shipments state_two = [first_record; second_record].
Proof. vm_compute. reflexivity. Qed.

Example state_two_editing_draft :
  formData state_two_editing
  = ShipmentFormData.mk "12" "8" "6" "5.5" "INV-12345".
Proof. vm_compute. reflexivity. Qed.

(** ** Starting an edit (C8) *)

(** C8: in every reachable state at most one position of the store holds
    the record being edited, and starting an edit on a record [R] of the
    store while another edit is open goes straight to [editing (id R)], with
    the draft loaded from [R] and the store as it was. *)
Theorem edit_last_wins (st : State) :
  reachable st ->
  (forall (i j : nat) (r1 r2 : Shipment.t),
      nth_error (shipments st) i = Some r1 ->
      nth_error (shipments st) j = Some r2 ->
      mode st = editing (Shipment.id r1) ->
      mode st = editing (Shipment.id r2) -> i = j)
  /\ (forall (id : string) (R : Shipment.t),
         mode st = editing id -> In R (shipments st) ->
         mode (fst (handleEdit R st)) = editing (Shipment.id R)
         /\ formData (fst (handleEdit R st)) = draft_of R
         /\ shipments (fst (handleEdit R st)) = shipments st).
Proof.
  intros Hreach. destruct (reachable_store_inv st Hreach) as [Hnd Hall].
  split.
  - intros i j r1 r2 H1 H2 M1 M2.
    assert (Hid : Shipment.id r1 = Shipment.id r2).
    { rewrite M1 in M2. congruence. }
    apply (proj1 (NoDup_nth_error (ids st)) Hnd).
    + unfold ids. apply nth_error_Some.
      rewrite (nth_error_map_some Shipment.id _ _ _ H1). discriminate.
    + unfold ids.
      rewrite (nth_error_map_some Shipment.id _ _ _ H1),
        (nth_error_map_some Shipment.id _ _ _ H2), Hid.
      reflexivity.
  - intros id R _ HR.
    assert (Hinv : record_inv R).
    { revert R HR. apply Forall_forall. exact Hall. }
    destruct Hinv as [Hlen _].
    unfold mode, handleEdit. cbn [fst editingId formData shipments].
    rewrite (length_21_truthy _ Hlen). repeat split.
Qed.

Lemma edit_last_wins_witness :
  mode (fst (handleEdit second_record state_two_editing))
  = editing (Shipment.id second_record)
  /\ formData (fst (handleEdit second_record state_two_editing))
     = draft_of second_record
  /\ shipments (fst (handleEdit second_record state_two_editing))
     = shipments state_two_editing.
Proof.
  apply (proj2 (edit_last_wins state_two_editing state_two_editing_reachable)
           "V1StGXR8_Z5jdHi6B-myT"%string second_record).
  - reflexivity.
  - vm_compute. right. left. reflexivity.
Defined.

(** ** The invariants of the store (C9) *)

(** C9: in every state reachable from the empty store, every record has
    length, width, height and weight strictly greater than zero, and no two
    records carry the same identifier. The identifiers that [nanoid()]
    returns are taken to be new to the store ([nanoid_ok]). *)
Theorem store_positive_unique (st : State) :
  reachable st ->
  Forall positive_record (shipments st) /\ NoDup (ids st).
Proof.
  intros Hreach. destruct (reachable_store_inv st Hreach) as [Hnd Hall].
  split; [ | exact Hnd ].
  eapply Forall_impl; [ | exact Hall ].
  intros s (_ & (_ & Hl & _) & (_ & Hw & _) & (_ & Hh & _) & _ & Hwt).
  repeat split; assumption.
Qed.

Lemma store_positive_unique_witness :
  Forall positive_record (shipments state_two) /\ NoDup (ids state_two).
Proof.
  apply (store_positive_unique state_two state_two_reachable).
Defined.

(** ** Editing and submitting at once (C10) *)

Lemma field_ok_toString (x : JS.number) :
  JS.valid x = true -> strictly_positive x -> field_ok (JS.toString x).
Proof.
  intros Hv Hpos. pose proof (parseFloat_toString x Hv Hpos) as Hrt.
  unfold field_ok. rewrite Hrt.
  split; [ | split; [ | exact Hpos ] ].
  - apply positive_parse_nonempty. rewrite Hrt. exact Hpos.
  - apply positive_iff. exact Hpos.
Qed.

Lemma ceil_parseFloat_toString (x : JS.number) :
  dimension_inv x -> JS.ceil (JS.parseFloat (JS.toString x)) = x.
Proof.
  intros (Hv & Hpos & Hint). rewrite parseFloat_toString by assumption.
  exact Hint.
Qed.

(** C10: for a record [R] of a reachable store, starting an edit on [R] and
    submitting the untouched draft rebuilds [R] itself and leaves the
    collection exactly as it was; the edit is closed and the draft reset. *)
Theorem edit_submit_identity (nanoid : string) (st : State) (R : Shipment.t) :
  reachable st -> In R (shipments st) ->
  newShipment nanoid (fst (handleEdit R st)) = R
  /\ handleAddShipment nanoid (fst (handleEdit R st))
     = (mkState (shipments st) None emptyForm,
        [toast_success "Package updated"]).
Proof.
  intros Hreach HR. destruct (reachable_store_inv st Hreach) as [Hnd Hall].
  assert (Hinv : record_inv R).
  { revert R HR. apply Forall_forall. exact Hall. }
  destruct Hinv as (Hlen & Hl & Hw & Hh & Hwv & Hwp).
  pose proof (length_21_truthy _ Hlen) as Htr.
  set (st1 := fst (handleEdit R st)).
  assert (Hnew : newShipment nanoid st1 = R).
  { unfold newShipment, st1, handleEdit.
    cbn [fst editingId formData ShipmentFormData.length ShipmentFormData.width
         ShipmentFormData.height ShipmentFormData.weight
         ShipmentFormData.reference].
    rewrite Htr, !ceil_parseFloat_toString, parseFloat_toString by assumption.
    destruct R; reflexivity. }
  split; [ exact Hnew | ].
  assert (Hok : draft_ok (formData st1)).
  { unfold st1, handleEdit, draft_ok.
    cbn [fst formData ShipmentFormData.length ShipmentFormData.width
         ShipmentFormData.height ShipmentFormData.weight].
    repeat split; apply field_ok_toString;
      solve [ apply Hl | apply Hw | apply Hh | assumption ]. }
  apply validateForm_true_iff in Hok.
  rewrite (handleAddShipment_accepted _ _ Hok), Hnew.
  unfold st1, handleEdit. cbn [fst editingId shipments truthy strict_eq].
  rewrite Htr. f_equal. f_equal.
  rewrite <- (map_id (shipments st)) at 2.
  apply map_ext_in. intros s Hs.
  destruct (Shipment.id s =? Shipment.id R)%string eqn:E; [ | reflexivity ].
  apply String.eqb_eq in E. symmetry.
  apply (same_id_same_record (shipments st)); assumption.
Qed.

Lemma edit_submit_identity_witness :
  newShipment "x" (fst (handleEdit first_record state_two)) = first_record
  /\ handleAddShipment "x" (fst (handleEdit first_record state_two))
     = (mkState (shipments state_two) None emptyForm,
        [toast_success "Package updated"]).
Proof.
  apply (edit_submit_identity "x" state_two first_record).
  - exact state_two_reachable.
  - vm_compute. left. reflexivity.
Defined.

Example edit_submit_example :
  shipments (fst (handleAddShipment "x" state_two_editing))
  = [first_record; second_record].
Proof. vm_compute. reflexivity. Qed.
